(** * Producer/consumer queue, its decorators and its coordination strategies

    A shallow embedding of [ProducerConsumer.h]: the [IQueue] class hierarchy
    ([Queue], [QueueDecorator], [SafeQueue], [SizeLimitedQueue]), the three
    [ProduceConsumeStrategy] subclasses and the tester's builder.

    Conventions.
    - A C++ [int] is a [Z]; the one place where the code narrows a wider
      number to [int] ([static_cast<int>(queue.size())]) is written out with
      [to_int].
    - [std::queue<int>] is a [list Z] whose head is the front of the queue.
    - Undefined behaviour of the C++ program (calling [back()]/[pop()] on an
      empty [std::queue], flowing off the end of a value-returning function)
      is an explicit result, never a default value. *)

From Stdlib Require Import ZArith List Bool Lia.
Import ListNotations.
Local Open Scope Z_scope.

(* ------------------------------------------------------------------ *)
(** ** Integers and results                                            *)
(* ------------------------------------------------------------------ *)

(** [static_cast<int>(x)] for a 32-bit [int]: reduction modulo 2^32 into
    the signed range. *)
Definition to_int (z : Z) : Z := (z + 2 ^ 31) mod 2 ^ 32 - 2 ^ 31.

(** The values an [int] can hold. *)
Definition int_range (z : Z) : Prop := - 2 ^ 31 <= z < 2 ^ 31.

(** Result of running a piece of C++ whose behaviour may be undefined. *)
Inductive outcome (A : Type) : Type :=
| Defined (a : A)
| UndefinedBehavior.
Arguments Defined {A} a.
Arguments UndefinedBehavior {A}.

(* ------------------------------------------------------------------ *)
(** ** The queue classes                                                *)
(* ------------------------------------------------------------------ *)

Module Core.

(** [class Queue]: the member [std::queue<int> queue]. *)
Definition storage : Type := list Z.

(** [Queue::produce]: [queue.push(value); return true;] *)
Definition produce (queue : storage) (value : Z) : bool * storage :=
  (true, queue ++ [value]).

(** [Queue::consume]: [value = queue.back(); queue.pop(); return true;]
    [back()] reads the last element, [pop()] drops the first one; both are
    undefined on an empty [std::queue]. *)
Definition consume (queue : storage) (value : Z) : outcome (bool * Z * storage) :=
  match queue with
  | [] => UndefinedBehavior
  | _ :: rest => Defined (true, List.last queue value, rest)
  end.

(** [Queue::empty]: [queue.empty()] *)
Definition empty (queue : storage) : bool :=
  match queue with [] => true | _ :: _ => false end.

(** [Queue::size]: [static_cast<int>(queue.size())] *)
Definition size (queue : storage) : Z := to_int (Z.of_nat (length queue)).

End Core.

(** The objects reachable through an [IQueue*]: a [Queue], or a decorator
    holding a pointer [pQueue] to the next object of the chain.  The chain is
    linear, so the pointee is stored in place. *)
Inductive IQueue : Type :=
| Queue (queue : Core.storage)
| QueueDecorator (pQueue : IQueue)
| SafeQueue (pQueue : IQueue)
| SizeLimitedQueue (pQueue : IQueue) (maxSize : Z).

(** Virtual [size()]: [Queue::size], or [QueueDecorator::size] which calls
    [pQueue->size()]. *)
Fixpoint size (q : IQueue) : Z :=
  match q with
  | Queue queue => Core.size queue
  | QueueDecorator pQueue => size pQueue
  | SafeQueue pQueue => size pQueue
  | SizeLimitedQueue pQueue _ => size pQueue
  end.

(** Virtual [empty()]. *)
Fixpoint empty (q : IQueue) : bool :=
  match q with
  | Queue queue => Core.empty queue
  | QueueDecorator pQueue => empty pQueue
  | SafeQueue pQueue => empty pQueue
  | SizeLimitedQueue pQueue _ => empty pQueue
  end.

(** Virtual [full()]: [Queue] inherits [IQueue::full] ([return false;]);
    [SizeLimitedQueue::full] is
    [QueueDecorator::size() >= maxSize || QueueDecorator::full()]. *)
Fixpoint full (q : IQueue) : bool :=
  match q with
  | Queue _ => false
  | QueueDecorator pQueue => full pQueue
  | SafeQueue pQueue => full pQueue
  | SizeLimitedQueue pQueue maxSize => (maxSize <=? size pQueue) || full pQueue
  end.

(** Virtual [produce(value)].  [SizeLimitedQueue::produce] is
    [if (full()) return false; return QueueDecorator::produce(value);] *)
Fixpoint produce (q : IQueue) (value : Z) : bool * IQueue :=
  match q with
  | Queue queue =>
      let '(r, queue') := Core.produce queue value in (r, Queue queue')
  | QueueDecorator pQueue =>
      let '(r, p') := produce pQueue value in (r, QueueDecorator p')
  | SafeQueue pQueue =>
      let '(r, p') := produce pQueue value in (r, SafeQueue p')
  | SizeLimitedQueue pQueue maxSize =>
      if full q then (false, q)
      else let '(r, p') := produce pQueue value in
           (r, SizeLimitedQueue p' maxSize)
  end.

(** Virtual [consume(int& value)]: the second argument is the referenced
    [int] before the call, the result carries it after the call.
    [SafeQueue::consume] is
    [if (QueueDecorator::empty()) return false;
     return QueueDecorator::consume(value);] *)
Fixpoint consume (q : IQueue) (value : Z) : outcome (bool * Z * IQueue) :=
  match q with
  | Queue queue =>
      match Core.consume queue value with
      | Defined (r, v, queue') => Defined (r, v, Queue queue')
      | UndefinedBehavior => UndefinedBehavior
      end
  | QueueDecorator pQueue =>
      match consume pQueue value with
      | Defined (r, v, p') => Defined (r, v, QueueDecorator p')
      | UndefinedBehavior => UndefinedBehavior
      end
  | SafeQueue pQueue =>
      if empty pQueue then Defined (false, value, q)
      else match consume pQueue value with
           | Defined (r, v, p') => Defined (r, v, SafeQueue p')
           | UndefinedBehavior => UndefinedBehavior
           end
  | SizeLimitedQueue pQueue maxSize =>
      match consume pQueue value with
      | Defined (r, v, p') => Defined (r, v, SizeLimitedQueue p' maxSize)
      | UndefinedBehavior => UndefinedBehavior
      end
  end.

(** [SizeLimitedQueue::SizeLimitedQueue(IQueue* pQueue, int maxSize)
      : QueueDecorator(pQueue), maxSize(maxSize) {}]
    [None] would be a constructor that throws. *)
Definition new_SizeLimitedQueue (pQueue : IQueue) (maxSize : Z) : option IQueue :=
  Some (SizeLimitedQueue pQueue maxSize).

(** *** Sequences of calls on one queue object *)

(** [produce] called once per element of [values], in order; the results of
    the calls and the final object. *)
Fixpoint produce_all (q : IQueue) (values : list Z) : list bool * IQueue :=
  match values with
  | [] => ([], q)
  | value :: rest =>
      let '(r, q') := produce q value in
      let '(rs, q'') := produce_all q' rest in
      (r :: rs, q'')
  end.

(** [consume(value)] called [n] times on the same [int] variable. *)
Fixpoint consume_n (n : nat) (q : IQueue) (value : Z)
  : outcome (list bool * Z * IQueue) :=
  match n with
  | O => Defined ([], value, q)
  | S n' =>
      match consume q value with
      | UndefinedBehavior => UndefinedBehavior
      | Defined (r, v, q') =>
          match consume_n n' q' v with
          | UndefinedBehavior => UndefinedBehavior
          | Defined (rs, v', q'') => Defined (r :: rs, v', q'')
          end
      end
  end.

(** *** Views of a chain used in the statements *)

(** The [std::queue] at the end of the chain. *)
Fixpoint contents (q : IQueue) : Core.storage :=
  match q with
  | Queue queue => queue
  | QueueDecorator pQueue => contents pQueue
  | SafeQueue pQueue => contents pQueue
  | SizeLimitedQueue pQueue _ => contents pQueue
  end.

(** The same chain of decorators around another [std::queue]. *)
Fixpoint with_contents (q : IQueue) (queue : Core.storage) : IQueue :=
  match q with
  | Queue _ => Queue queue
  | QueueDecorator pQueue => QueueDecorator (with_contents pQueue queue)
  | SafeQueue pQueue => SafeQueue (with_contents pQueue queue)
  | SizeLimitedQueue pQueue maxSize =>
      SizeLimitedQueue (with_contents pQueue queue) maxSize
  end.

(** The [maxSize] of every [SizeLimitedQueue] of the chain, outermost first. *)
Fixpoint limits (q : IQueue) : list Z :=
  match q with
  | Queue _ => []
  | QueueDecorator pQueue => limits pQueue
  | SafeQueue pQueue => limits pQueue
  | SizeLimitedQueue pQueue maxSize => maxSize :: limits pQueue
  end.

(** Is there a [SafeQueue] somewhere in the chain? *)
Fixpoint guarded (q : IQueue) : bool :=
  match q with
  | Queue _ => false
  | QueueDecorator pQueue => guarded pQueue
  | SafeQueue _ => true
  | SizeLimitedQueue pQueue _ => guarded pQueue
  end.

(* ------------------------------------------------------------------ *)
(** ** The coordination strategies                                      *)
(* ------------------------------------------------------------------ *)

(** [SleepProduceConsume::SleepStrategy]: the two function values the code
    ever stores in [sleep], [std::this_thread::yield] (the default member
    initialiser) and [sleep_for] bound to a number of microseconds. *)
Inductive SleepStrategy : Type :=
| yield
| sleep_for_microseconds (us : Z).

(** The dynamic type of a strategy object, with the members its subclass
    adds to [ProduceConsumeStrategy]. *)
Inductive strategy_class : Type :=
| BruteForceProduceConsume
| SleepProduceConsume (sleep : SleepStrategy)
| WaitProduceConsume.

(** The members [std::condition_variable] of [WaitProduceConsume]. *)
Inductive condvar : Type :=
| onConsumeFromFull
| onProduceToEmpty.

Definition condvar_eqb (a b : condvar) : bool :=
  match a, b with
  | onConsumeFromFull, onConsumeFromFull => true
  | onProduceToEmpty, onProduceToEmpty => true
  | _, _ => false
  end.

(** A call of one of the two virtual methods of the strategy. *)
Inductive operation : Type :=
| produce_call (value : Z)
| consume_call.

(** Where a call stands.  The mutex [queueLock] serialises the regions
    guarded by a [std::unique_lock], so each of them is one atomic step:
    - [LoopTest]: about to evaluate the condition of the [while] loop
      (outside the lock);
    - [Locked]: about to take [queueLock] and run the guarded region (for
      [WaitProduceConsume]: to evaluate the predicate of [wait]);
    - [Waiting cv]: suspended inside [cv.wait], lock released;
    - [Returned r]: the call has returned ([Some v] for [consume], [None]
      for the [void] method [produce]);
    - [Undefined]: the call has run into undefined behaviour. *)
Inductive program_point : Type :=
| LoopTest
| Locked
| Waiting (cv : condvar)
| Returned (result : option Z)
| Undefined.

(** The local variables of a call: [consumedValue], and the flag
    [produced] / [consumed] of the [BruteForceProduceConsume] loops. *)
Record call : Type := mkCall {
  op : operation;
  at_point : program_point;
  consumedValue : Z;
  flag : bool
}.

(** A strategy object together with the queue object [pQueue] points to, the
    calls made on it so far, and a log of the [sleep()] invocations. *)
Record system : Type := mkSystem {
  class : strategy_class;
  pQueue : IQueue;
  stop : bool;
  calls : list call;
  slept : list SleepStrategy
}.

(** [ProduceConsumeStrategy(IQueue* pQueue) : pQueue(pQueue), stop(false)] *)
Definition new_strategy (c : strategy_class) (q : IQueue) : system :=
  mkSystem c q false [] [].

(** [void setStop(bool stop) { this->stop = stop; }] *)
Definition setStop (b : bool) (s : system) : system :=
  mkSystem (class s) (pQueue s) b (calls s) (slept s).

(** [void setSleepStrategy(SleepStrategy strategy) { sleep = strategy; }],
    a method of [SleepProduceConsume] only: it replaces the member [sleep]. *)
Definition setSleepStrategy (strategy : SleepStrategy) (k : strategy_class)
  : strategy_class :=
  match k with
  | SleepProduceConsume _ => SleepProduceConsume strategy
  | _ => k
  end.

Definition set_queue (q : IQueue) (s : system) : system :=
  mkSystem (class s) q (stop s) (calls s) (slept s).

Definition log_sleep (p : SleepStrategy) (s : system) : system :=
  mkSystem (class s) (pQueue s) (stop s) (calls s) (slept s ++ [p]).

Fixpoint replace_nth {A : Type} (n : nat) (x : A) (l : list A) {struct l} : list A :=
  match l with
  | [] => []
  | y :: l' =>
      match n with
      | O => x :: l'
      | S n' => y :: replace_nth n' x l'
      end
  end.

Definition set_call (t : nat) (c : call) (s : system) : system :=
  mkSystem (class s) (pQueue s) (stop s) (replace_nth t c (calls s)) (slept s).

Definition move_to (p : program_point) (c : call) : call :=
  mkCall (op c) p (consumedValue c) (flag c).

(** What the call returns when it reaches its [return] (or, for the [void]
    method, the end of its body). *)
Definition return_value (c : call) : program_point :=
  match op c with
  | produce_call _ => Returned None
  | consume_call => Returned (Some (consumedValue c))
  end.

(** The calls suspended on [cv], by index. *)
Fixpoint waiters_from (i : nat) (cv : condvar) (l : list call) : list nat :=
  match l with
  | [] => []
  | c :: l' =>
      match at_point c with
      | Waiting cv' =>
          if condvar_eqb cv cv' then i :: waiters_from (S i) cv l'
          else waiters_from (S i) cv l'
      | _ => waiters_from (S i) cv l'
      end
  end.

Definition waiters (cv : condvar) (s : system) : list nat :=
  waiters_from 0 cv (calls s).

(** [cv.notify_one()]: if calls are suspended on [cv], one of them (which
    one is unspecified: [pick] chooses) leaves the wait and has to take the
    lock and evaluate its predicate again; with no waiter, nothing happens. *)
Definition notify_one (cv : condvar) (pick : nat) (s : system) : system :=
  match waiters cv s with
  | [] => s
  | w :: ws =>
      let t := nth (Nat.modulo pick (length (w :: ws))) (w :: ws) w in
      match nth_error (calls s) t with
      | Some c => set_call t (move_to Locked c) s
      | None => s
      end
  end.

(** *** The guarded regions of the three strategies *)

Module BruteForce.

(** The loop conditions [while (!stop && !produced)] and
    [while (!stop && !consumed)]; when the condition fails, [produce] ends
    and [consume] executes [return consumedValue;]. *)
Definition loop_test (stop : bool) (c : call) : call :=
  if negb stop && negb (flag c) then move_to Locked c
  else move_to (return_value c) c.

(** The loop bodies, under the lock:
    [produced = pQueue->produce(value);] and
    [consumed = pQueue->consume(consumedValue);] *)
Definition body (q : IQueue) (c : call) : call * IQueue :=
  match op c with
  | produce_call value =>
      let '(r, q') := produce q value in
      (mkCall (op c) LoopTest (consumedValue c) r, q')
  | consume_call =>
      match consume q (consumedValue c) with
      | Defined (r, v, q') => (mkCall (op c) LoopTest v r, q')
      | UndefinedBehavior => (move_to Undefined c, q)
      end
  end.

End BruteForce.

Module Sleep.

(** The loop condition [while (!stop)].  When it fails, [produce] reaches the
    end of a [void] function; [consume] reaches the closing brace of a
    function returning [int] without a [return] statement. *)
Definition loop_test (stop : bool) (c : call) : call :=
  if negb stop then move_to Locked c
  else match op c with
       | produce_call _ => move_to (Returned None) c
       | consume_call => move_to Undefined c
       end.

(** The loop bodies, under the lock:
    [if (pQueue->produce(value)) return; else sleep();] and
    [if (pQueue->consume(consumedValue)) return consumedValue; else sleep();]
    The boolean tells whether [sleep()] was called. *)
Definition body (q : IQueue) (c : call) : call * IQueue * bool :=
  match op c with
  | produce_call value =>
      let '(r, q') := produce q value in
      if r then (move_to (Returned None) c, q', false)
      else (move_to LoopTest c, q', true)
  | consume_call =>
      match consume q (consumedValue c) with
      | Defined (r, v, q') =>
          if r then (mkCall (op c) (Returned (Some v)) v (flag c), q', false)
          else (mkCall (op c) LoopTest v (flag c), q', true)
      | UndefinedBehavior => (move_to Undefined c, q, false)
      end
  end.

End Sleep.

Module Wait.

(** The predicates handed to [onProduceToEmpty.wait(locker, ...)] by
    [produce] and by [consume].  The result is the value of the predicate
    ([None]: undefined behaviour inside it), the call with its captured
    locals updated, the queue, and the condition variable on which
    [notify_one()] was called, if any.

    produce: [if (stop) return true; wasEmpty = pQueue->empty();
              if (pQueue->produce(value)) {
                if (wasEmpty) onProduceToEmpty.notify_one(); return true; }
              return false;]
    consume: [if (stop) return true; wasFull = pQueue->full();
              if (pQueue->consume(consumedValue)) {
                if (wasFull) onConsumeFromFull.notify_one(); return true; }
              return false;] *)
Definition predicate (stop : bool) (q : IQueue) (c : call)
  : option bool * call * IQueue * option condvar :=
  if stop then (Some true, c, q, None)
  else
    match op c with
    | produce_call value =>
        let wasEmpty := empty q in
        let '(r, q') := produce q value in
        if r then
          (Some true, c, q', if wasEmpty then Some onProduceToEmpty else None)
        else (Some false, c, q', None)
    | consume_call =>
        let wasFull := full q in
        match consume q (consumedValue c) with
        | Defined (r, v, q') =>
            let c' := mkCall (op c) (at_point c) v (flag c) in
            if r then
              (Some true, c', q', if wasFull then Some onConsumeFromFull else None)
            else (Some false, c', q', None)
        | UndefinedBehavior => (None, c, q, None)
        end
    end.

(** The condition variable both methods wait on:
    [onProduceToEmpty.wait(locker, ...)] in [produce] and in [consume]. *)
Definition waits_on (o : operation) : condvar :=
  match o with
  | produce_call _ => onProduceToEmpty
  | consume_call => onProduceToEmpty
  end.

End Wait.

(** *** The transition system *)

(** What can happen to a strategy object:
    - [Call o consumed0]: a thread enters [produce(value)] or [consume()].
      [consumed0] is the indeterminate value of the uninitialised local
      [bool consumed;] of [BruteForceProduceConsume::consume];
      [bool produced = false;] is initialised;
    - [Run t pick]: call number [t] executes its next atomic step ([pick]
      resolves the choice of [notify_one], if the step notifies);
    - [Spurious t]: call [t], suspended in [wait], wakes up without having
      been notified, as [std::condition_variable] allows;
    - [SetStop b]: somebody calls [setStop(b)]. *)
Inductive event : Type :=
| Call (o : operation) (consumed0 : bool)
| Run (t : nat) (pick : nat)
| Spurious (t : nat)
| SetStop (b : bool).

(** The state of a call on entry: [int consumedValue = 0;], and the loop
    flag.  The loops of the first two strategies start with their test; a
    [WaitProduceConsume] call starts by taking the lock. *)
Definition enter (k : strategy_class) (o : operation) (consumed0 : bool) : call :=
  mkCall o
    (match k with WaitProduceConsume => Locked | _ => LoopTest end)
    0
    (match o with produce_call _ => false | consume_call => consumed0 end).

Definition run_call (t : nat) (pick : nat) (c : call) (s : system) : option system :=
  match class s, at_point c with
  | BruteForceProduceConsume, LoopTest =>
      Some (set_call t (BruteForce.loop_test (stop s) c) s)
  | BruteForceProduceConsume, Locked =>
      let '(c', q') := BruteForce.body (pQueue s) c in
      Some (set_call t c' (set_queue q' s))
  | SleepProduceConsume _, LoopTest =>
      Some (set_call t (Sleep.loop_test (stop s) c) s)
  | SleepProduceConsume sleep, Locked =>
      let '(c', q', did_sleep) := Sleep.body (pQueue s) c in
      let s' := set_call t c' (set_queue q' s) in
      Some (if did_sleep then log_sleep sleep s' else s')
  | WaitProduceConsume, Locked =>
      let '(r, c', q', notified) := Wait.predicate (stop s) (pQueue s) c in
      let s' := set_queue q' s in
      match r with
      | None => Some (set_call t (move_to Undefined c') s')
      | Some true =>
          let s'' := set_call t (move_to (return_value c') c') s' in
          Some (match notified with
                | Some cv => notify_one cv pick s''
                | None => s''
                end)
      | Some false =>
          Some (set_call t (move_to (Waiting (Wait.waits_on (op c'))) c') s')
      end
  | _, _ => None
  end.

(** One transition; [None] when the event cannot happen in this state. *)
Definition step (e : event) (s : system) : option system :=
  match e with
  | Call o consumed0 =>
      Some (mkSystem (class s) (pQueue s) (stop s)
              (calls s ++ [enter (class s) o consumed0]) (slept s))
  | Run t pick =>
      match nth_error (calls s) t with
      | Some c => run_call t pick c s
      | None => None
      end
  | Spurious t =>
      match nth_error (calls s) t with
      | Some c =>
          match at_point c with
          | Waiting _ => Some (set_call t (move_to Locked c) s)
          | _ => None
          end
      | None => None
      end
  | SetStop b => Some (setStop b s)
  end.

(** A sequence of transitions. *)
Fixpoint run (es : list event) (s : system) : option system :=
  match es with
  | [] => Some s
  | e :: es' =>
      match step e s with
      | Some s' => run es' s'
      | None => None
      end
  end.

(** The program point of call [t]. *)
Definition point_of (t : nat) (s : system) : option program_point :=
  option_map at_point (nth_error (calls s) t).

(** The states a strategy object constructed on [q] can reach. *)
Inductive reachable (k : strategy_class) (q : IQueue) : system -> Prop :=
| reachable_new : reachable k q (new_strategy k q)
| reachable_step : forall s e s',
    reachable k q s -> step e s = Some s' -> reachable k q s'.

(** A call that is not suspended on [onConsumeFromFull]. *)
Definition never_on_full (c : call) : Prop :=
  at_point c <> Waiting onConsumeFromFull.

(* ------------------------------------------------------------------ *)
(** ** The tester and its builder                                      *)
(* ------------------------------------------------------------------ *)

(** The [IQueue*] values the builder creates: the only object whose address
    it takes is the member [requestsQueue] of the tester under construction. *)
Inductive IQueue_ptr : Type :=
| address_of_requestsQueue.

(** The strategy object owned by a tester ([std::unique_ptr]); its queue
    lives in the tester. *)
Record strategy_object : Type := mkStrategyObject {
  dynamic_type : strategy_class;
  pQueue_ptr : IQueue_ptr;
  stop_flag : bool
}.

(** [class ProducerConsumerTester]: [Queue requestsQueue;
    int producerSleepTime = 100;
    std::unique_ptr<ProduceConsumeStrategy> strategy = nullptr;] *)
Record ProducerConsumerTester : Type := mkTester {
  requestsQueue : Core.storage;
  producerSleepTime : Z;
  strategy : option strategy_object
}.

(** [ProducerConsumerTester() = default;] *)
Definition new_tester : ProducerConsumerTester := mkTester [] 100 None.

(** [ProducerConsumerTesterBuilder::setStrategy], on the member [builded]:
    [builded.strategy =
       std::make_unique<SleepProduceConsume>(&builded.requestsQueue);]
    followed by [setSleepStrategy(std::bind(&sleep_for<long long, std::micro>,
    std::chrono::microseconds(100)))] on the new object, whose [sleep]
    member was [yield] until then. *)
Definition setStrategy (builded : ProducerConsumerTester) : ProducerConsumerTester :=
  let made :=
    mkStrategyObject (SleepProduceConsume yield) address_of_requestsQueue false in
  let configured :=
    mkStrategyObject
      (setSleepStrategy (sleep_for_microseconds 100) (dynamic_type made))
      (pQueue_ptr made) (stop_flag made) in
  mkTester (requestsQueue builded) (producerSleepTime builded) (Some configured).

(** [ProducerConsumerTesterBuilder::setProducerSleepTime] *)
Definition setProducerSleepTime (t : Z) (builded : ProducerConsumerTester)
  : ProducerConsumerTester :=
  mkTester (requestsQueue builded) t (strategy builded).

(** The object a pointer of the tester's strategy designates. *)
Definition pointee (t : ProducerConsumerTester) (p : IQueue_ptr) : IQueue :=
  match p with
  | address_of_requestsQueue => Queue (requestsQueue t)
  end.

(** The tester's strategy with the queue it points to, ready to take calls. *)
Definition assembled (t : ProducerConsumerTester) : option system :=
  match strategy t with
  | Some o =>
      Some (mkSystem (dynamic_type o) (pointee t (pQueue_ptr o)) (stop_flag o) [] [])
  | None => None
  end.

(* ------------------------------------------------------------------ *)
(** ** Drivers and predicates used in the further properties            *)
(* ------------------------------------------------------------------ *)

(** A call of [produce(value)] or of [consume(...)] on a queue object. *)
Inductive queue_call : Type :=
| call_produce (value : Z)
| call_consume.

(** The calls [cs] made one after the other on the same object, every
    [consume] on the same [int] variable; the result of each call, the
    variable and the object at the end. *)
Fixpoint run_calls (q : IQueue) (value : Z) (cs : list queue_call)
  : outcome (list bool * Z * IQueue) :=
  match cs with
  | [] => Defined ([], value, q)
  | call_produce x :: cs' =>
      let '(r, q') := produce q x in
      match run_calls q' value cs' with
      | Defined (rs, v, q'') => Defined (r :: rs, v, q'')
      | UndefinedBehavior => UndefinedBehavior
      end
  | call_consume :: cs' =>
      match consume q value with
      | Defined (r, v, q') =>
          match run_calls q' v cs' with
          | Defined (rs, v', q'') => Defined (r :: rs, v', q'')
          | UndefinedBehavior => UndefinedBehavior
          end
      | UndefinedBehavior => UndefinedBehavior
      end
  end.

(** How many of the calls were a [produce] that returned [true]. *)
Fixpoint inserted (cs : list queue_call) (rs : list bool) : nat :=
  match cs, rs with
  | call_produce _ :: cs', true :: rs' => S (inserted cs' rs')
  | _ :: cs', _ :: rs' => inserted cs' rs'
  | _, _ => O
  end.

(** How many of the calls were a [consume] that returned [true]. *)
Fixpoint removed (cs : list queue_call) (rs : list bool) : nat :=
  match cs, rs with
  | call_consume :: cs', true :: rs' => S (removed cs' rs')
  | _ :: cs', _ :: rs' => removed cs' rs'
  | _, _ => O
  end.

(** [consume(value)] called [n] times on the same variable; for each call,
    what it returned and what the variable held afterwards. *)
Fixpoint consume_trace (n : nat) (q : IQueue) (value : Z)
  : outcome (list (bool * Z) * IQueue) :=
  match n with
  | O => Defined ([], q)
  | S n' =>
      match consume q value with
      | UndefinedBehavior => UndefinedBehavior
      | Defined (r, v, q') =>
          match consume_trace n' q' v with
          | UndefinedBehavior => UndefinedBehavior
          | Defined (rs, q'') => Defined ((r, v) :: rs, q'')
          end
      end
  end.

(** A call that cannot take a step of its own: suspended in [wait], or
    over. *)
Definition idle (c : call) : bool :=
  match at_point c with
  | Waiting _ | Returned _ | Undefined => true
  | LoopTest | Locked => false
  end.


(** The system with another log of [sleep()] invocations. *)
Definition with_slept (l : list SleepStrategy) (s : system) : system :=
  mkSystem (class s) (pQueue s) (stop s) (calls s) l.

(** The steps call [t] takes when nobody interferes and its first attempt
    succeeds: loop test, guarded region and loop test again for
    [BruteForceProduceConsume]; loop test and guarded region for
    [SleepProduceConsume]; the predicate of [wait] for
    [WaitProduceConsume]. *)
Definition first_attempt (k : strategy_class) (t : nat) : list event :=
  match k with
  | BruteForceProduceConsume => [Run t 0; Run t 0; Run t 0]
  | SleepProduceConsume _ => [Run t 0; Run t 0]
  | WaitProduceConsume => [Run t 0]
  end.

(** One failed attempt of call [t] of a polling strategy: loop test, then
    guarded region. *)
Definition failed_attempts (n : nat) (t : nat) : list event :=
  concat (repeat [Run t 0; Run t 0] n).

(** The lambda [randomSleepTime] of [ProducerConsumerTester::test]:
    [sleepTime / 2 + rand() % sleepTime], in [int] arithmetic, with [rand]
    the number [rand()] returned.  [/] and [%] truncate towards zero;
    [% 0] and an [int] overflow of the sum are undefined. *)
Definition randomSleepTime (sleepTime rand : Z) : outcome Z :=
  if sleepTime =? 0 then UndefinedBehavior
  else
    let t := Z.quot sleepTime 2 + Z.rem rand sleepTime in
    if (- 2 ^ 31 <=? t) && (t <? 2 ^ 31) then Defined t
    else UndefinedBehavior.

(* ------------------------------------------------------------------ *)
(** ** Properties of the queue classes                                  *)
(* ------------------------------------------------------------------ *)

Section ChainLemmas.

Lemma to_int_le (z : Z) : 0 <= z -> to_int z <= z.
Proof.
  intros Hz. unfold to_int.
  assert ((z + 2 ^ 31) mod 2 ^ 32 <= z + 2 ^ 31) by (apply Z.mod_le; lia).
  lia.
Qed.

Lemma to_int_id (z : Z) : int_range z -> to_int z = z.
Proof.
  unfold int_range, to_int. intros Hz.
  rewrite Z.mod_small; lia.
Qed.

Lemma size_contents (q : IQueue) : size q = Core.size (contents q).
Proof. induction q; simpl; auto. Qed.

Lemma empty_contents (q : IQueue) : empty q = Core.empty (contents q).
Proof. induction q; simpl; auto. Qed.

Lemma full_limits (q : IQueue) :
  full q = existsb (fun maxSize => maxSize <=? size q) (limits q).
Proof. induction q; simpl; auto. now rewrite IHq. Qed.

Lemma contents_with_contents (q : IQueue) (l : Core.storage) :
  contents (with_contents q l) = l.
Proof. induction q; simpl; auto. Qed.

Lemma limits_with_contents (q : IQueue) (l : Core.storage) :
  limits (with_contents q l) = limits q.
Proof. induction q; simpl; auto. now rewrite IHq. Qed.

Lemma guarded_with_contents (q : IQueue) (l : Core.storage) :
  guarded (with_contents q l) = guarded q.
Proof. induction q; simpl; auto. Qed.

Lemma with_contents_same (q : IQueue) : with_contents q (contents q) = q.
Proof. induction q; simpl; congruence. Qed.

Lemma with_contents_twice (q : IQueue) (l l' : Core.storage) :
  with_contents (with_contents q l) l' = with_contents q l'.
Proof. induction q; simpl; congruence. Qed.

(** [produce] through any chain: refused, object untouched, exactly when the
    chain reports [full()]; otherwise the value goes to the back. *)
Lemma produce_spec (q : IQueue) (value : Z) :
  produce q value =
  if full q then (false, q)
  else (true, with_contents q (contents q ++ [value])).
Proof.
  induction q as [queue | p IH | p IH | p IH maxSize].
  - reflexivity.
  - simpl. rewrite IH. destruct (full p); reflexivity.
  - simpl. rewrite IH. destruct (full p); reflexivity.
  - cbn [produce full contents with_contents].
    destruct (maxSize <=? size p); simpl; [reflexivity|].
    rewrite IH. destruct (full p); reflexivity.
Qed.

(** [consume] through any chain. *)
Lemma consume_spec (q : IQueue) (value : Z) :
  consume q value =
  match contents q with
  | [] => if guarded q then Defined (false, value, q) else UndefinedBehavior
  | front :: rest =>
      Defined (true, List.last (front :: rest) value, with_contents q rest)
  end.
Proof.
  induction q as [queue | p IH | p IH | p IH maxSize].
  - destruct queue; reflexivity.
  - cbn [consume contents guarded with_contents]. rewrite IH.
    destruct (contents p); [destruct (guarded p)|]; reflexivity.
  - cbn [consume contents guarded with_contents].
    rewrite empty_contents, IH.
    destruct (contents p); reflexivity.
  - cbn [consume contents guarded with_contents]. rewrite IH.
    destruct (contents p); [destruct (guarded p)|]; reflexivity.
Qed.

Lemma produce_all_below_limits (values : list Z) :
  forall q,
    Forall (fun maxSize =>
              Z.of_nat (length (contents q) + length values) <= maxSize)
           (limits q) ->
    produce_all q values =
    (repeat true (length values), with_contents q (contents q ++ values)).
Proof.
  induction values as [| v values IH]; intros q Hlim.
  - simpl. now rewrite app_nil_r, with_contents_same.
  - cbn [produce_all]. rewrite produce_spec.
    assert (Hnf : full q = false).
    { rewrite full_limits. apply not_true_is_false. intros Hex.
      apply existsb_exists in Hex. destruct Hex as [m [Hin Hle]].
      rewrite Forall_forall in Hlim. specialize (Hlim m Hin).
      apply Z.leb_le in Hle. rewrite size_contents in Hle.
      unfold Core.size in Hle.
      pose proof (to_int_le (Z.of_nat (length (contents q)))) as Hw.
      simpl length in Hlim. lia. }
    rewrite Hnf.
    rewrite IH.
    + rewrite contents_with_contents, with_contents_twice, <- app_assoc.
      reflexivity.
    + rewrite contents_with_contents, limits_with_contents, length_app.
      simpl length in *.
      eapply Forall_impl; [|exact Hlim]. simpl. intros; lia.
Qed.

Lemma produce_all_successes (values : list Z) :
  forall q rs q',
    produce_all q values = (rs, q') ->
    Forall (fun r => r = true) rs ->
    q' = with_contents q (contents q ++ values).
Proof.
  induction values as [| v values IH]; intros q rs q' Hrun Hall.
  - simpl in Hrun. inversion Hrun; subst.
    now rewrite app_nil_r, with_contents_same.
  - cbn [produce_all] in Hrun. rewrite produce_spec in Hrun.
    destruct (full q).
    + destruct (produce_all q values) as [rs0 q0].
      inversion Hrun; subst. inversion Hall; discriminate.
    + destruct (produce_all (with_contents q (contents q ++ [v])) values)
        as [rs0 q0] eqn:Hrest.
      inversion Hrun; subst. inversion Hall; subst.
      rewrite (IH _ _ _ Hrest) by assumption.
      now rewrite contents_with_contents, with_contents_twice, <- app_assoc.
Qed.

Lemma consume_n_drains (l : Core.storage) :
  forall q value,
    contents q = l ->
    exists v,
      consume_n (length l) q value =
      Defined (repeat true (length l), v, with_contents q []).
Proof.
  induction l as [| x l IH]; intros q value Hc.
  - exists value. simpl. now rewrite <- Hc, with_contents_same.
  - cbn [length consume_n]. rewrite consume_spec, Hc.
    destruct (IH (with_contents q l) (List.last (x :: l) value)
                 (contents_with_contents q l)) as [v Hv].
    exists v. rewrite Hv, with_contents_twice. reflexivity.
Qed.

End ChainLemmas.

(** C1.  On every non-empty [Queue], [consume] succeeds, stores in [value]
    the element at the back of the container and drops the element at its
    front; after a [produce x] the value read is therefore [x], the most
    recently inserted one, while the element dropped is the oldest. *)
Theorem Queue_consume_reads_back_pops_front :
  forall (queue : Core.storage) (value : Z),
    queue <> [] ->
    consume (Queue queue) value =
      Defined (true, List.last queue value, Queue (List.tl queue))
    /\ (forall older newest, queue = older ++ [newest] ->
        consume (Queue queue) value =
          Defined (true, newest, Queue (List.tl queue)))
    /\ (forall front rest, queue = front :: rest ->
        exists back, consume (Queue queue) value = Defined (true, back, Queue rest)).
Proof.
  intros queue value Hne.
  destruct queue as [| front rest]; [contradiction|].
  split; [reflexivity|]. split.
  - intros older newest Heq. cbn [consume Core.consume List.tl].
    replace (List.last (front :: rest) value) with newest; [reflexivity|].
    rewrite Heq. symmetry. apply last_last.
  - intros f r Heq. inversion Heq; subst.
    eexists. reflexivity.
Qed.

Lemma Queue_consume_reads_back_pops_front_witness :
  consume (Queue [1; 2; 3]) 0 = Defined (true, 3, Queue [2; 3])
  /\ consume (Queue ([1; 2] ++ [3])) 0 = Defined (true, 3, Queue [2; 3])
  /\ exists back, consume (Queue [1; 2; 3]) 0 = Defined (true, back, Queue [2; 3]).
Proof.
  assert (Hne : [1; 2; 3] <> @nil Z) by discriminate.
  destruct (Queue_consume_reads_back_pops_front [1; 2; 3] 0 Hne)
    as [Hlast [Hnewest Hfront]].
  split; [exact Hlast|].
  split; [exact (Hnewest [1; 2] 3 eq_refl) | exact (Hfront 1 [2; 3] eq_refl)].
Defined.

(** C5.  [SafeQueue::consume] asks [empty()] first.  On an empty queue it
    returns [false], leaves the referenced [int] and the whole chain as they
    were, and does not reach the inner [consume] (which would be undefined on
    an empty [Queue]); on a non-empty queue it is the inner [consume];
    [produce] is the inner [produce]. *)
Theorem SafeQueue_consume_guards_empty :
  forall (pQueue : IQueue) (value : Z),
    (empty pQueue = true ->
     consume (SafeQueue pQueue) value = Defined (false, value, SafeQueue pQueue))
    /\ (empty pQueue = false ->
        consume (SafeQueue pQueue) value =
        match consume pQueue value with
        | Defined (r, v, p') => Defined (r, v, SafeQueue p')
        | UndefinedBehavior => UndefinedBehavior
        end)
    /\ (forall x, produce (SafeQueue pQueue) x =
                  (fst (produce pQueue x), SafeQueue (snd (produce pQueue x))))
    /\ (consume (Queue []) value = UndefinedBehavior
        /\ consume (SafeQueue (Queue [])) value =
           Defined (false, value, SafeQueue (Queue []))).
Proof.
  intros pQueue value. repeat split.
  - intros He. cbn [consume]. now rewrite He.
  - intros He. cbn [consume]. now rewrite He.
  - intros x. cbn [produce]. destruct (produce pQueue x); reflexivity.
Qed.

Lemma SafeQueue_consume_guards_empty_witness :
  consume (SafeQueue (SizeLimitedQueue (Queue []) 2)) 7 =
    Defined (false, 7, SafeQueue (SizeLimitedQueue (Queue []) 2))
  /\ consume (SafeQueue (Queue [4; 5])) 7 = Defined (true, 5, SafeQueue (Queue [5])).
Proof.
  split.
  - apply (proj1 (SafeQueue_consume_guards_empty
                    (SizeLimitedQueue (Queue []) 2) 7)).
    reflexivity.
  - apply (proj1 (proj2 (SafeQueue_consume_guards_empty (Queue [4; 5]) 7))).
    reflexivity.
Defined.

(** C6.  For a [SizeLimitedQueue] of capacity [K] around [inner]:
    [full()] is true exactly when the inner size is at least [K] or the inner
    object is full; a [produce] on a full decorator returns [false] and
    changes nothing; starting from an empty queue, once [K] calls of
    [produce] have all succeeded the size is [K] and one more [produce]
    fails, leaving the size at [K]; and those [K] calls do succeed when no
    object further down the chain limits the size. *)
Theorem SizeLimitedQueue_refuses_at_capacity :
  forall (inner : IQueue) (K : Z),
    full (SizeLimitedQueue inner K) = ((K <=? size inner) || full inner)
    /\ (forall value,
          full (SizeLimitedQueue inner K) = true ->
          produce (SizeLimitedQueue inner K) value =
            (false, SizeLimitedQueue inner K))
    /\ (forall values rs q',
          int_range K ->
          contents inner = [] ->
          Z.of_nat (length values) = K ->
          produce_all (SizeLimitedQueue inner K) values = (rs, q') ->
          Forall (fun r => r = true) rs ->
          size q' = K
          /\ forall value,
               produce q' value = (false, q')
               /\ size (snd (produce q' value)) = K)
    /\ (forall values,
          contents inner = [] ->
          limits inner = [] ->
          Z.of_nat (length values) = K ->
          fst (produce_all (SizeLimitedQueue inner K) values) =
            repeat true (length values)).
Proof.
  intros inner K. split; [reflexivity|]. split; [|split].
  - intros value Hfull. rewrite produce_spec, Hfull. reflexivity.
  - intros values rs q' HK Hempty Hlen Hrun Hall.
    pose proof (produce_all_successes _ _ _ _ Hrun Hall) as Hq'.
    cbn [contents with_contents] in Hq'. rewrite Hempty in Hq'.
    simpl app in Hq'.
    assert (Hsize : size q' = K).
    { rewrite Hq'. cbn [size]. rewrite size_contents, contents_with_contents.
      unfold Core.size. rewrite Hlen. now apply to_int_id. }
    split; [exact Hsize|]. intros value.
    assert (Hfull : full q' = true).
    { rewrite Hq' in *. cbn [full size] in *. rewrite Hsize.
      rewrite Z.leb_refl. reflexivity. }
    rewrite produce_spec, Hfull. split; [reflexivity | exact Hsize].
  - intros values Hempty Hlim Hlen.
    rewrite produce_all_below_limits; [reflexivity|].
    cbn [limits contents]. rewrite Hlim, Hempty.
    constructor; [|constructor]. simpl length. lia.
Qed.

Lemma SizeLimitedQueue_refuses_at_capacity_witness :
  (size (SizeLimitedQueue (Queue [10; 20]) 2) = 2
   /\ produce (SizeLimitedQueue (Queue [10; 20]) 2) 30 =
        (false, SizeLimitedQueue (Queue [10; 20]) 2))
  /\ produce (SizeLimitedQueue (Queue [10]) 1) 30 =
        (false, SizeLimitedQueue (Queue [10]) 1)
  /\ fst (produce_all (SizeLimitedQueue (SafeQueue (Queue [])) 2) [10; 20]) =
        [true; true].
Proof.
  assert (HK : int_range 2) by (unfold int_range; lia).
  assert (Hall : Forall (fun r => r = true) [true; true])
    by (repeat constructor).
  destruct (SizeLimitedQueue_refuses_at_capacity (Queue []) 2)
    as [_ [_ [Hafter _]]].
  destruct (SizeLimitedQueue_refuses_at_capacity (Queue [10]) 1)
    as [_ [Hfull _]].
  destruct (SizeLimitedQueue_refuses_at_capacity (SafeQueue (Queue [])) 2)
    as [_ [_ [_ Hsucceed]]].
  split; [|split].
  - destruct (Hafter [10; 20] [true; true] (SizeLimitedQueue (Queue [10; 20]) 2)
                HK eq_refl eq_refl eq_refl Hall) as [Hsize Hnext].
    split; [exact Hsize | exact (proj1 (Hnext 30))].
  - exact (Hfull 30 eq_refl).
  - exact (Hsucceed [10; 20] eq_refl eq_refl eq_refl).
Defined.

(** C8 (as the code has it).  The constructor of [SizeLimitedQueue] accepts
    every capacity: it never fails, and stores the capacity as given.  With a
    capacity that is not positive, around a queue whose size is not negative,
    the new decorator is full from the start: every [produce] returns [false]
    and leaves the queue as it was. *)
Theorem SizeLimitedQueue_constructor_accepts_any_capacity :
  forall (pQueue : IQueue) (maxSize : Z),
    new_SizeLimitedQueue pQueue maxSize = Some (SizeLimitedQueue pQueue maxSize)
    /\ (maxSize <= 0 ->
        0 <= size pQueue ->
        full (SizeLimitedQueue pQueue maxSize) = true
        /\ forall value,
             produce (SizeLimitedQueue pQueue maxSize) value =
               (false, SizeLimitedQueue pQueue maxSize)).
Proof.
  intros pQueue maxSize. split; [reflexivity|].
  intros Hcap Hsize.
  assert (Hfull : full (SizeLimitedQueue pQueue maxSize) = true).
  { cbn [full]. apply orb_true_iff. left. apply Z.leb_le. lia. }
  split; [exact Hfull|].
  intros value. rewrite produce_spec, Hfull. reflexivity.
Qed.

Lemma SizeLimitedQueue_constructor_accepts_any_capacity_witness :
  new_SizeLimitedQueue (Queue []) (-3) = Some (SizeLimitedQueue (Queue []) (-3))
  /\ full (SizeLimitedQueue (Queue []) (-3)) = true
  /\ produce (SizeLimitedQueue (Queue []) (-3)) 5 =
       (false, SizeLimitedQueue (Queue []) (-3)).
Proof.
  destruct (SizeLimitedQueue_constructor_accepts_any_capacity (Queue []) (-3))
    as [Hnew Hfull].
  assert (Hcap : -3 <= 0) by lia.
  assert (Hsize : 0 <= size (Queue [])) by (vm_compute; discriminate).
  destruct (Hfull Hcap Hsize) as [Hf Hp].
  split; [exact Hnew|]. split; [exact Hf | exact (Hp 5)].
Defined.

(** C8 as stated fails: a capacity of zero is not rejected, construction
    completes. *)
Lemma SizeLimitedQueue_zero_capacity_not_rejected :
  0 <= 0
  /\ new_SizeLimitedQueue (Queue []) 0 <> None
  /\ new_SizeLimitedQueue (Queue []) 0 = Some (SizeLimitedQueue (Queue []) 0).
Proof.
  split; [lia|]. split; [discriminate | reflexivity].
Qed.

(** C9.  Starting from an empty queue behind any chain of decorators whose
    capacities are all at least [N], [N] calls of [produce] followed by [N]
    calls of [consume] all succeed, and the object is back in its initial,
    empty state. *)
Theorem produce_then_consume_round_trip :
  forall (q : IQueue) (values : list Z) (value : Z),
    contents q = [] ->
    Forall (fun maxSize => Z.of_nat (length values) <= maxSize) (limits q) ->
    exists q1 v,
      produce_all q values = (repeat true (length values), q1)
      /\ consume_n (length values) q1 value =
           Defined (repeat true (length values), v, q)
      /\ empty q = true.
Proof.
  intros q values value Hempty Hlim.
  exists (with_contents q values).
  destruct (consume_n_drains values (with_contents q values) value
              (contents_with_contents q values)) as [v Hv].
  exists v. split; [|split].
  - rewrite produce_all_below_limits; rewrite Hempty; [reflexivity|].
    exact Hlim.
  - rewrite Hv, with_contents_twice, <- Hempty, with_contents_same.
    reflexivity.
  - rewrite empty_contents, Hempty. reflexivity.
Qed.

Lemma produce_then_consume_round_trip_witness :
  exists q1 v,
    produce_all (SizeLimitedQueue (SafeQueue (Queue [])) 3) [4; 5; 6] =
      (repeat true 3, q1)
    /\ consume_n 3 q1 0 =
         Defined (repeat true 3, v, SizeLimitedQueue (SafeQueue (Queue [])) 3)
    /\ empty (SizeLimitedQueue (SafeQueue (Queue [])) 3) = true.
Proof.
  apply (produce_then_consume_round_trip
           (SizeLimitedQueue (SafeQueue (Queue [])) 3) [4; 5; 6] 0).
  - reflexivity.
  - constructor; [simpl; lia | constructor].
Defined.

(* ------------------------------------------------------------------ *)
(** ** Properties of the strategies                                     *)
(* ------------------------------------------------------------------ *)

Section TransitionLemmas.

Lemma stop_set_call (t : nat) (c : call) (s : system) :
  stop (set_call t c s) = stop s.
Proof. reflexivity. Qed.

Lemma stop_notify_one (cv : condvar) (pick : nat) (s : system) :
  stop (notify_one cv pick s) = stop s.
Proof.
  unfold notify_one. destruct (waiters cv s); [reflexivity|].
  destruct (nth_error _ _); reflexivity.
Qed.

Lemma pQueue_notify_one (cv : condvar) (pick : nat) (s : system) :
  pQueue (notify_one cv pick s) = pQueue s.
Proof.
  unfold notify_one. destruct (waiters cv s); [reflexivity|].
  destruct (nth_error _ _); reflexivity.
Qed.

(** No step of a call writes the flag [stop]. *)
Lemma run_call_keeps_stop (t pick : nat) (c : call) (s s' : system) :
  run_call t pick c s = Some s' -> stop s' = stop s.
Proof.
  unfold run_call. intros H.
  destruct (class s) as [| sleep |]; destruct (at_point c);
    try discriminate.
  - inversion H; reflexivity.
  - destruct (BruteForce.body (pQueue s) c) as [c' q'].
    inversion H; reflexivity.
  - inversion H; reflexivity.
  - destruct (Sleep.body (pQueue s) c) as [[c' q'] b].
    inversion H. destruct b; reflexivity.
  - destruct (Wait.predicate (stop s) (pQueue s) c) as [[[r c'] q'] n].
    destruct r as [[|]|]; [destruct n|..]; inversion H; try reflexivity.
    now rewrite stop_notify_one.
Qed.

Lemma last_nonempty_default {A : Type} (l : list A) :
  forall a d d', List.last (a :: l) d = List.last (a :: l) d'.
Proof.
  induction l as [| x l IH]; intros a d d'; [reflexivity|].
  change (List.last (x :: l) d = List.last (x :: l) d'). apply IH.
Qed.

Lemma run_SetStop (bs : list bool) :
  forall s, exists s',
    run (map SetStop bs) s = Some s' /\ stop s' = List.last bs (stop s).
Proof.
  induction bs as [| b bs IH]; intros s.
  - exists s. split; reflexivity.
  - cbn [map run step].
    destruct (IH (setStop b s)) as [s' [Hrun Hstop]].
    exists s'. split; [exact Hrun|].
    rewrite Hstop. cbn [setStop stop].
    destruct bs as [| b' bs']; [reflexivity|].
    change (List.last (b :: b' :: bs') (stop s))
      with (List.last (b' :: bs') (stop s)).
    apply last_nonempty_default.
Qed.

Lemma Forall_replace_nth {A : Type} (P : A -> Prop) (x : A) (l : list A) :
  forall n, Forall P l -> P x -> Forall P (replace_nth n x l).
Proof.
  induction l as [| y l IH]; intros n Hl Hx; [constructor|].
  inversion Hl; subst. destruct n; simpl; constructor; auto.
Qed.

Lemma waiters_from_none (cv : condvar) (l : list call) :
  forall i,
    Forall (fun c => at_point c <> Waiting cv) l -> waiters_from i cv l = [].
Proof.
  induction l as [| c l IH]; intros i Hl; [reflexivity|].
  inversion Hl; subst. simpl.
  destruct (at_point c) as [| | cv' | |] eqn:Hat; auto.
  destruct cv, cv'; simpl; auto; congruence.
Qed.

Lemma notify_one_never_on_full (cv : condvar) (pick : nat) (s : system) :
  Forall never_on_full (calls s) ->
  Forall never_on_full (calls (notify_one cv pick s)).
Proof.
  intros H. unfold notify_one. destruct (waiters cv s); [exact H|].
  destruct (nth_error _ _); [|exact H].
  cbn [set_call calls]. apply Forall_replace_nth; [exact H|].
  unfold never_on_full. simpl. discriminate.
Qed.

Lemma step_never_on_full (e : event) (s s' : system) :
  step e s = Some s' ->
  Forall never_on_full (calls s) -> Forall never_on_full (calls s').
Proof.
  intros Hstep Hinv. destruct e as [o c0 | t pick | t | b]; cbn [step] in Hstep.
  - inversion Hstep; subst. cbn [calls]. apply Forall_app. split; [exact Hinv|].
    constructor; [|constructor]. unfold never_on_full, enter. simpl.
    destruct (class s); discriminate.
  - destruct (nth_error (calls s) t) as [c|]; [|discriminate].
    unfold run_call in Hstep.
    destruct (class s) as [| sleep |]; destruct (at_point c);
      try discriminate.
    + inversion Hstep; subst. cbn [set_call calls].
      apply Forall_replace_nth; [exact Hinv|].
      unfold never_on_full, BruteForce.loop_test, return_value.
      destruct (negb (stop s) && negb (flag c)); simpl;
        [|destruct (op c)]; discriminate.
    + destruct (BruteForce.body (pQueue s) c) as [c' q'] eqn:Hb.
      inversion Hstep; subst. cbn [set_call set_queue calls].
      apply Forall_replace_nth; [exact Hinv|].
      unfold never_on_full. unfold BruteForce.body in Hb.
      destruct (op c).
      * destruct (produce (pQueue s) value). inversion Hb; subst.
        simpl. discriminate.
      * destruct (consume (pQueue s) (consumedValue c)) as [[[r v] q0]|];
          inversion Hb; subst; simpl; discriminate.
    + inversion Hstep; subst. cbn [set_call calls].
      apply Forall_replace_nth; [exact Hinv|].
      unfold never_on_full, Sleep.loop_test.
      destruct (negb (stop s)); [|destruct (op c)]; simpl; discriminate.
    + destruct (Sleep.body (pQueue s) c) as [[c' q'] b] eqn:Hb.
      inversion Hstep; subst.
      assert (Hc' : never_on_full c').
      { unfold never_on_full. unfold Sleep.body in Hb.
        destruct (op c).
        - destruct (produce (pQueue s) value) as [[|] q0];
            inversion Hb; subst; simpl; discriminate.
        - destruct (consume (pQueue s) (consumedValue c)) as [[[[|] v] q0]|];
            inversion Hb; subst; simpl; discriminate. }
      destruct b; cbn [log_sleep set_call set_queue calls];
        apply Forall_replace_nth; assumption.
    + destruct (Wait.predicate (stop s) (pQueue s) c) as [[[r c'] q'] n].
      destruct r as [[|]|]; inversion Hstep; subst.
      * assert (Hs : Forall never_on_full
                       (calls (set_call t (move_to (return_value c') c')
                                 (set_queue q' s)))).
        { cbn [set_call set_queue calls].
          apply Forall_replace_nth; [exact Hinv|].
          unfold never_on_full, return_value. destruct (op c'); simpl; discriminate. }
        destruct n; [apply notify_one_never_on_full|]; exact Hs.
      * cbn [set_call set_queue calls].
        apply Forall_replace_nth; [exact Hinv|].
        unfold never_on_full, Wait.waits_on. simpl.
        destruct (op c'); discriminate.
      * cbn [set_call set_queue calls].
        apply Forall_replace_nth; [exact Hinv|].
        unfold never_on_full. simpl. discriminate.
  - destruct (nth_error (calls s) t) as [c|]; [|discriminate].
    destruct (at_point c); try discriminate.
    inversion Hstep; subst. cbn [set_call calls].
    apply Forall_replace_nth; [exact Hinv|].
    unfold never_on_full. simpl. discriminate.
  - inversion Hstep; subst. exact Hinv.
Qed.

(** Whatever the strategy and the schedule, no call is ever suspended on
    [onConsumeFromFull]: a [notify_one()] on it reaches nobody. *)
Lemma onConsumeFromFull_has_no_waiter (k : strategy_class) (q : IQueue) (s : system) :
  reachable k q s ->
  waiters onConsumeFromFull s = []
  /\ forall pick, notify_one onConsumeFromFull pick s = s.
Proof.
  intros Hr.
  assert (Hinv : Forall never_on_full (calls s)).
  { induction Hr as [| s e s' _ IH Hstep]; [constructor|].
    eapply step_never_on_full; eassumption. }
  assert (Hw : waiters onConsumeFromFull s = [])
    by (apply waiters_from_none; exact Hinv).
  split; [exact Hw|].
  intros pick. unfold notify_one. now rewrite Hw.
Qed.

End TransitionLemmas.

(** C2.  A run of [WaitProduceConsume] on a queue of capacity 1 in which a
    producer is left suspended although the queue has room: [produce(7)]
    fills the queue; [produce(8)] finds it full and waits on
    [onProduceToEmpty]; [consume()] then removes 7 from the full queue and
    calls [onConsumeFromFull.notify_one()], a condition variable nobody waits
    on.  Afterwards the queue is not full, [stop] is unset, the producer is
    still waiting, and no call can take a step. *)
Theorem WaitProduceConsume_consume_misses_blocked_producer :
  let q0 := SizeLimitedQueue (SafeQueue (Queue [])) 1 in
  let blocked :=
    [Call (produce_call 7) false; Run 0 0;
     Call (produce_call 8) false; Run 1 0;
     Call consume_call false] in
  exists s1 c s2,
    run blocked (new_strategy WaitProduceConsume q0) = Some s1
    /\ full (pQueue s1) = true
    /\ waiters onProduceToEmpty s1 = [1%nat]
    /\ waiters onConsumeFromFull s1 = []
    /\ nth_error (calls s1) 2 = Some c
    /\ snd (Wait.predicate (stop s1) (pQueue s1) c) = Some onConsumeFromFull
    /\ step (Run 2 0) s1 = Some s2
    /\ point_of 2 s2 = Some (Returned (Some 7))
    /\ full (pQueue s2) = false
    /\ stop s2 = false
    /\ point_of 1 s2 = Some (Waiting onProduceToEmpty)
    /\ forall t pick, step (Run t pick) s2 = None.
Proof.
  cbv zeta.
  eexists. eexists. eexists.
  split; [vm_compute; reflexivity|].
  split; [vm_compute; reflexivity|].
  split; [vm_compute; reflexivity|].
  split; [vm_compute; reflexivity|].
  split; [vm_compute; reflexivity|].
  split; [vm_compute; reflexivity|].
  split; [vm_compute; reflexivity|].
  split; [vm_compute; reflexivity|].
  split; [vm_compute; reflexivity|].
  split; [vm_compute; reflexivity|].
  split; [vm_compute; reflexivity|].
  intros t pick.
  destruct t as [| [| [| t]]]; try reflexivity.
  cbn [step calls nth_error]. destruct t; reflexivity.
Qed.

(** C3.  [BruteForceProduceConsume::consume] with the uninitialised local
    [consumed] holding [true]: the loop is not entered, the call returns 0
    with [stop] unset, and the queue is as it was, whatever it contained.
    With [consumed] holding [false] the same call on a queue that holds
    one element removes and returns it. *)
Theorem BruteForce_consume_returns_without_removing :
  forall q : IQueue,
    (exists s,
       run [Call consume_call true; Run 0 0]
           (new_strategy BruteForceProduceConsume q) = Some s
       /\ point_of 0 s = Some (Returned (Some 0))
       /\ stop s = false
       /\ pQueue s = q)
    /\ (exists s,
          run [Call consume_call false; Run 0 0; Run 0 0; Run 0 0]
              (new_strategy BruteForceProduceConsume (SafeQueue (Queue [5]))) = Some s
          /\ point_of 0 s = Some (Returned (Some 5))
          /\ pQueue s = SafeQueue (Queue [])).
Proof.
  intros q. split.
  - eexists. split; [reflexivity|]. repeat split.
  - eexists. split; [reflexivity|]. repeat split.
Qed.

(** C4.  [SleepProduceConsume::consume] entered with [stop] already set:
    the loop is skipped and control reaches the end of the function, which
    has no [return] statement there; the behaviour is undefined and no [int]
    is produced.  The other two strategies return [consumedValue], which is
    0, in the same situation. *)
Theorem Sleep_consume_after_stop_has_no_result :
  forall (q : IQueue) (sleep : SleepStrategy) (consumed0 : bool),
    (exists s,
       run [SetStop true; Call consume_call consumed0; Run 0 0]
           (new_strategy (SleepProduceConsume sleep) q) = Some s
       /\ point_of 0 s = Some Undefined)
    /\ (exists s,
          run [SetStop true; Call consume_call consumed0; Run 0 0]
              (new_strategy BruteForceProduceConsume q) = Some s
          /\ point_of 0 s = Some (Returned (Some 0)))
    /\ (exists s,
          run [SetStop true; Call consume_call consumed0; Run 0 0]
              (new_strategy WaitProduceConsume q) = Some s
          /\ point_of 0 s = Some (Returned (Some 0))).
Proof.
  intros q sleep consumed0. repeat split.
  - eexists. split; reflexivity.
  - eexists. split; reflexivity.
  - eexists. split; reflexivity.
Qed.

(** C7 (as the code has it).  [setStop(b)] stores [b]: after any sequence of
    [setStop] calls the flag holds the argument of the last one, so it stays
    [true] under repeated [setStop(true)]; and no step of [produce] or
    [consume], no wake-up and no new call writes the flag. *)
Theorem setStop_stores_its_argument :
  (forall b s, stop (setStop b s) = b)
  /\ (forall bs s, exists s',
        run (map SetStop bs) s = Some s' /\ stop s' = List.last bs (stop s))
  /\ (forall n s, exists s',
        run (map SetStop (true :: repeat true n)) s = Some s' /\ stop s' = true)
  /\ (forall e s s',
        (forall b, e <> SetStop b) -> step e s = Some s' -> stop s' = stop s).
Proof.
  split; [reflexivity|]. split; [intros bs s; apply run_SetStop|]. split.
  - intros n s. destruct (run_SetStop (true :: repeat true n) s) as [s' [Hrun Hstop]].
    exists s'. split; [exact Hrun|]. rewrite Hstop.
    clear. generalize (stop s).
    induction n as [| n IH]; intros d; [reflexivity|].
    change (List.last (true :: repeat true n) d = true). apply IH.
  - intros e s s' Hne Hstep.
    destruct e as [o c0 | t pick | t | b]; cbn [step] in Hstep.
    + inversion Hstep; reflexivity.
    + destruct (nth_error (calls s) t) as [c|]; [|discriminate].
      eapply run_call_keeps_stop; eassumption.
    + destruct (nth_error (calls s) t) as [c|]; [|discriminate].
      destruct (at_point c); try discriminate. inversion Hstep; reflexivity.
    + exfalso. apply (Hne b). reflexivity.
Qed.

Lemma setStop_stores_its_argument_witness :
  let s := mkSystem BruteForceProduceConsume (Queue [3]) true
             [mkCall consume_call Locked 0 false] [] in
  let s' := mkSystem BruteForceProduceConsume (Queue []) true
              [mkCall consume_call LoopTest 3 true] [] in
  (forall b, Run 0 0 <> SetStop b)
  /\ step (Run 0 0) s = Some s'
  /\ stop s' = stop s.
Proof.
  cbv zeta.
  assert (Hne : forall b, Run 0 0 <> SetStop b) by (intros b; discriminate).
  split; [exact Hne|]. split; [reflexivity|].
  apply (proj2 (proj2 (proj2 setStop_stores_its_argument)) (Run 0 0));
    [exact Hne | reflexivity].
Defined.

(** C7 as stated fails: [setStop(false)] after [setStop(true)] clears the
    flag. *)
Lemma setStop_false_clears_flag :
  let s0 := new_strategy BruteForceProduceConsume (Queue []) in
  stop (setStop true s0) = true
  /\ stop (setStop false (setStop true s0)) = false
  /\ option_map stop (run [SetStop true; SetStop false] s0) = Some false.
Proof.
  cbv zeta. repeat split.
Qed.

(** C10.  [setStrategy] always installs a [SleepProduceConsume] whose
    [sleep] is [sleep_for] 100 microseconds, whose flag [stop] is unset and
    whose [pQueue] is the address of the tester's own [requestsQueue], a
    plain [Queue] with no decorator around it.  When that queue is empty, a
    [consume()] on the strategy passes the loop test, takes the lock and
    calls [Queue::consume] on the empty container, which is undefined. *)
Theorem setStrategy_binds_sleep_strategy_to_bare_queue :
  forall builded : ProducerConsumerTester,
    strategy (setStrategy builded) =
      Some (mkStrategyObject (SleepProduceConsume (sleep_for_microseconds 100))
              address_of_requestsQueue false)
    /\ assembled (setStrategy builded) =
         Some (new_strategy (SleepProduceConsume (sleep_for_microseconds 100))
                 (Queue (requestsQueue builded)))
    /\ (requestsQueue builded = [] ->
        forall (s0 : system) (consumed0 : bool),
          assembled (setStrategy builded) = Some s0 ->
          empty (pQueue s0) = true
          /\ guarded (pQueue s0) = false
          /\ consume (pQueue s0) 0 = UndefinedBehavior
          /\ exists s1 s2,
               run [Call consume_call consumed0; Run 0 0] s0 = Some s1
               /\ point_of 0 s1 = Some Locked
               /\ step (Run 0 0) s1 = Some s2
               /\ point_of 0 s2 = Some Undefined).
Proof.
  intros builded. split; [reflexivity|]. split; [reflexivity|].
  intros Hempty s0 consumed0 Hs0.
  cbv [assembled setStrategy strategy dynamic_type pQueue_ptr stop_flag
       pointee requestsQueue] in Hs0.
  destruct builded as [rq pst st]. cbn [requestsQueue] in Hempty. subst rq.
  inversion Hs0; subst s0. cbn [pQueue].
  split; [reflexivity|]. split; [reflexivity|]. split; [reflexivity|].
  eexists. eexists.
  split; [reflexivity|]. split; [reflexivity|]. split; reflexivity.
Qed.

Lemma setStrategy_binds_sleep_strategy_to_bare_queue_witness :
  exists s1 s2,
    run [Call consume_call false; Run 0 0]
        (new_strategy (SleepProduceConsume (sleep_for_microseconds 100)) (Queue []))
      = Some s1
    /\ point_of 0 s1 = Some Locked
    /\ step (Run 0 0) s1 = Some s2
    /\ point_of 0 s2 = Some Undefined.
Proof.
  destruct (setStrategy_binds_sleep_strategy_to_bare_queue new_tester)
    as [_ [_ Hconsume]].
  exact (proj2 (proj2 (proj2
           (Hconsume eq_refl
              (new_strategy (SleepProduceConsume (sleep_for_microseconds 100))
                 (Queue []))
              false eq_refl)))).
Defined.

(* ------------------------------------------------------------------ *)
(** ** Further properties of the queue classes                          *)
(* ------------------------------------------------------------------ *)

Section CallSequences.

Lemma length_below_int (n : nat) :
  Z.of_nat n < 2 ^ 31 -> to_int (Z.of_nat n) = Z.of_nat n.
Proof. intros H. apply to_int_id. unfold int_range. lia. Qed.

(** One [produce] keeps the queue within a capacity of the chain. *)
Lemma produce_within_limit (q : IQueue) (value K : Z) :
  In K (limits q) -> int_range K ->
  Z.of_nat (length (contents q)) <= K ->
  Z.of_nat (length (contents (snd (produce q value)))) <= K.
Proof.
  intros Hin HK Hlen. rewrite produce_spec.
  destruct (full q) eqn:Hfull; [exact Hlen|].
  cbn [snd]. rewrite contents_with_contents, length_app. simpl length.
  rewrite full_limits in Hfull.
  assert (Hk : (K <=? size q) = false).
  { destruct (K <=? size q) eqn:E; [|reflexivity].
    assert (existsb (fun maxSize => maxSize <=? size q) (limits q) = true)
      by (apply existsb_exists; exists K; split; assumption).
    congruence. }
  apply Z.leb_gt in Hk. rewrite size_contents in Hk. unfold Core.size in Hk.
  unfold int_range in HK. rewrite length_below_int in Hk; lia.
Qed.

Lemma produce_keeps_chain (q : IQueue) (value : Z) :
  limits (snd (produce q value)) = limits q
  /\ guarded (snd (produce q value)) = guarded q.
Proof.
  rewrite produce_spec. destruct (full q); cbn [snd];
    [split; reflexivity|].
  now rewrite limits_with_contents, guarded_with_contents.
Qed.

Lemma consume_keeps_chain (q q' : IQueue) (value v : Z) (r : bool) :
  consume q value = Defined (r, v, q') ->
  limits q' = limits q /\ guarded q' = guarded q
  /\ (length (contents q') <= length (contents q))%nat.
Proof.
  rewrite consume_spec. destruct (contents q) as [| x l] eqn:Hc.
  - destruct (guarded q) eqn:Hg; [|discriminate].
    intros H; inversion H; subst.
    split; [reflexivity|]. split; [exact Hg | rewrite Hc; apply Nat.le_refl].
  - intros H; inversion H; subst.
    rewrite limits_with_contents, guarded_with_contents, contents_with_contents.
    repeat split. simpl. apply Nat.le_succ_diag_r.
Qed.

End CallSequences.

(** X1.  [produce] through any chain of decorators returns [false] exactly
    when the chain reports [full()]; a refused [produce] leaves the object
    as it was, an accepted one puts the value at the back and changes
    nothing else (the decorators and their capacities stay). *)
Theorem produce_accepts_unless_full :
  forall (q : IQueue) (value : Z),
    fst (produce q value) = negb (full q)
    /\ limits (snd (produce q value)) = limits q
    /\ guarded (snd (produce q value)) = guarded q
    /\ (fst (produce q value) = false -> snd (produce q value) = q)
    /\ (fst (produce q value) = true ->
        contents (snd (produce q value)) = contents q ++ [value]
        /\ snd (produce q value) = with_contents q (contents q ++ [value])).
Proof.
  intros q value.
  destruct (produce_keeps_chain q value) as [Hl Hg].
  split; [|split; [exact Hl|split; [exact Hg|]]];
    rewrite produce_spec; destruct (full q); cbn [fst snd negb];
    try reflexivity.
  - split; [reflexivity | discriminate].
  - split; [discriminate|]. intros _.
    now rewrite contents_with_contents.
Qed.

Lemma produce_accepts_unless_full_witness :
  snd (produce (SafeQueue (SizeLimitedQueue (Queue [1]) 1)) 2) =
    SafeQueue (SizeLimitedQueue (Queue [1]) 1)
  /\ contents (snd (produce (SizeLimitedQueue (SafeQueue (Queue [1])) 2) 2)) =
       [1; 2].
Proof.
  split.
  - apply (proj1 (proj2 (proj2 (proj2
             (produce_accepts_unless_full
                (SafeQueue (SizeLimitedQueue (Queue [1]) 1)) 2))))).
    reflexivity.
  - apply (proj2 (proj2 (proj2 (proj2
             (produce_accepts_unless_full
                (SizeLimitedQueue (SafeQueue (Queue [1])) 2) 2))))).
    reflexivity.
Defined.

(** X2.  [consume] through any chain of decorators: on a non-empty queue it
    returns [true], stores the back element and drops the front one; on an
    empty queue it returns [false] and changes neither the variable nor the
    object when a [SafeQueue] is anywhere in the chain, and is undefined
    when there is none. *)
Theorem consume_through_any_chain :
  forall (q : IQueue) (value : Z),
    (contents q <> [] ->
     consume q value =
       Defined (true, List.last (contents q) value,
                with_contents q (List.tl (contents q))))
    /\ (contents q = [] -> guarded q = true ->
        consume q value = Defined (false, value, q))
    /\ (contents q = [] -> guarded q = false ->
        consume q value = UndefinedBehavior).
Proof.
  intros q value. rewrite consume_spec. repeat split.
  - intros Hne. destruct (contents q); [contradiction | reflexivity].
  - intros He Hg. now rewrite He, Hg.
  - intros He Hg. now rewrite He, Hg.
Qed.

Lemma consume_through_any_chain_witness :
  consume (SizeLimitedQueue (QueueDecorator (Queue [1; 2; 3])) 5) 0 =
    Defined (true, 3, SizeLimitedQueue (QueueDecorator (Queue [2; 3])) 5)
  /\ consume (SizeLimitedQueue (SafeQueue (QueueDecorator (Queue []))) 5) 9 =
       Defined (false, 9, SizeLimitedQueue (SafeQueue (QueueDecorator (Queue []))) 5)
  /\ consume (SizeLimitedQueue (QueueDecorator (Queue [])) 5) 9 =
       UndefinedBehavior.
Proof.
  split; [|split].
  - apply (proj1 (consume_through_any_chain
                    (SizeLimitedQueue (QueueDecorator (Queue [1; 2; 3])) 5) 0)).
    discriminate.
  - apply (proj1 (proj2 (consume_through_any_chain
             (SizeLimitedQueue (SafeQueue (QueueDecorator (Queue []))) 5) 9)));
      reflexivity.
  - apply (proj2 (proj2 (consume_through_any_chain
             (SizeLimitedQueue (QueueDecorator (Queue [])) 5) 9)));
      reflexivity.
Defined.

(** X3.  As long as the queue holds fewer than 2^31 elements, [size()]
    through any chain is the number of elements, it is never negative, and
    [empty()] is true exactly when [size()] is 0. *)
Theorem size_counts_elements :
  forall q : IQueue,
    Z.of_nat (length (contents q)) < 2 ^ 31 ->
    size q = Z.of_nat (length (contents q))
    /\ 0 <= size q
    /\ (empty q = true <-> size q = 0).
Proof.
  intros q Hlen.
  assert (Hs : size q = Z.of_nat (length (contents q))).
  { rewrite size_contents. unfold Core.size. now apply length_below_int. }
  split; [exact Hs|]. split; [lia|].
  rewrite Hs, empty_contents.
  destruct (contents q); simpl; split; intros H; try reflexivity;
    try discriminate; lia.
Qed.

Lemma size_counts_elements_witness :
  size (SafeQueue (SizeLimitedQueue (Queue [7; 8]) 4)) = 2
  /\ 0 <= size (SafeQueue (SizeLimitedQueue (Queue [7; 8]) 4))
  /\ (empty (SafeQueue (SizeLimitedQueue (Queue [7; 8]) 4)) = true <->
      size (SafeQueue (SizeLimitedQueue (Queue [7; 8]) 4)) = 0).
Proof.
  apply (size_counts_elements (SafeQueue (SizeLimitedQueue (Queue [7; 8]) 4))).
  vm_compute. reflexivity.
Defined.

(** X4.  A capacity [K] of a [SizeLimitedQueue] anywhere in the chain is an
    invariant: if the queue holds at most [K] elements, then after any
    sequence of [produce] and [consume] calls (that does not run into
    undefined behaviour) it still holds at most [K], [size()] is within
    0..K, and the chain has the same capacities. *)
Theorem capacity_is_kept_by_any_calls :
  forall (cs : list queue_call) (q : IQueue) (K value : Z)
         (rs : list bool) (v' : Z) (q' : IQueue),
    In K (limits q) ->
    int_range K ->
    Z.of_nat (length (contents q)) <= K ->
    run_calls q value cs = Defined (rs, v', q') ->
    Z.of_nat (length (contents q')) <= K
    /\ 0 <= size q' <= K
    /\ limits q' = limits q.
Proof.
  assert (Hsize : forall q K, int_range K ->
                    Z.of_nat (length (contents q)) <= K ->
                    Z.of_nat (length (contents q)) <= K /\ 0 <= size q <= K).
  { intros q K HK Hlen. split; [exact Hlen|].
    rewrite size_contents. unfold Core.size.
    unfold int_range in HK. rewrite length_below_int; lia. }
  induction cs as [| c cs IH]; intros q K value rs v' q' Hin HK Hlen Hrun.
  - simpl in Hrun. inversion Hrun; subst.
    destruct (Hsize q' K HK Hlen) as [H1 H2]. repeat split; tauto.
  - destruct c as [x |]; cbn [run_calls] in Hrun.
    + pose proof (produce_within_limit q x K Hin HK Hlen) as Hlen1.
      destruct (produce_keeps_chain q x) as [Hlim1 _].
      destruct (produce q x) as [r q1]. cbn [snd] in *.
      destruct (run_calls q1 value cs) as [[[rs1 v1] q2]|] eqn:Hrest;
        [|discriminate].
      inversion Hrun; subst.
      rewrite <- Hlim1 in Hin.
      destruct (IH _ _ _ _ _ _ Hin HK Hlen1 Hrest) as [Ha [Hb Hc]].
      repeat split; try tauto. congruence.
    + destruct (consume q value) as [[[r v1] q1]|] eqn:Hcons; [|discriminate].
      destruct (consume_keeps_chain _ _ _ _ _ Hcons) as [Hlim1 [_ Hle]].
      destruct (run_calls q1 v1 cs) as [[[rs1 v2] q2]|] eqn:Hrest;
        [|discriminate].
      inversion Hrun; subst.
      rewrite <- Hlim1 in Hin.
      assert (Hlen1 : Z.of_nat (length (contents q1)) <= K) by lia.
      destruct (IH _ _ _ _ _ _ Hin HK Hlen1 Hrest) as [Ha [Hb Hc]].
      repeat split; try tauto. congruence.
Qed.

Lemma capacity_is_kept_by_any_calls_witness :
  Z.of_nat (length (contents (SizeLimitedQueue (SafeQueue (Queue [1; 2])) 2))) <= 2
  /\ 0 <= size (SizeLimitedQueue (SafeQueue (Queue [1; 2])) 2) <= 2
  /\ limits (SizeLimitedQueue (SafeQueue (Queue [1; 2])) 2) =
       limits (SizeLimitedQueue (SafeQueue (Queue [])) 2).
Proof.
  apply (capacity_is_kept_by_any_calls
           [call_produce 1; call_produce 2; call_produce 3]
           (SizeLimitedQueue (SafeQueue (Queue [])) 2) 2 0
           [true; true; false] 0).
  - left. reflexivity.
  - unfold int_range. lia.
  - simpl. lia.
  - reflexivity.
Defined.

(** X5.  Elements are neither lost nor invented by the return values: over
    any sequence of calls that does not run into undefined behaviour, every
    call yields one result, and the final number of elements plus the number
    of successful [consume] calls is the initial number of elements plus the
    number of successful [produce] calls. *)
Theorem successes_account_for_length :
  forall (cs : list queue_call) (q : IQueue) (value : Z)
         (rs : list bool) (v' : Z) (q' : IQueue),
    run_calls q value cs = Defined (rs, v', q') ->
    length rs = length cs
    /\ (length (contents q') + removed cs rs =
        length (contents q) + inserted cs rs)%nat.
Proof.
  induction cs as [| c cs IH]; intros q value rs v' q' Hrun.
  - simpl in Hrun. inversion Hrun; subst. split; reflexivity.
  - destruct c as [x |]; cbn [run_calls] in Hrun.
    + rewrite produce_spec in Hrun.
      destruct (full q).
      * destruct (run_calls q value cs) as [[[rs1 v1] q2]|] eqn:Hrest;
          [|discriminate].
        inversion Hrun; subst. destruct (IH _ _ _ _ _ Hrest) as [Hl He].
        split; [simpl; congruence | exact He].
      * destruct (run_calls (with_contents q (contents q ++ [x])) value cs)
          as [[[rs1 v1] q2]|] eqn:Hrest; [|discriminate].
        inversion Hrun; subst. destruct (IH _ _ _ _ _ Hrest) as [Hl He].
        rewrite contents_with_contents, length_app in He. simpl length in He.
        split; [simpl; congruence|]. cbn [inserted removed]. lia.
    + rewrite consume_spec in Hrun.
      destruct (contents q) as [| y l] eqn:Hc.
      * destruct (guarded q); [|discriminate].
        destruct (run_calls q value cs) as [[[rs1 v1] q2]|] eqn:Hrest;
          [|discriminate].
        inversion Hrun; subst. destruct (IH _ _ _ _ _ Hrest) as [Hl He].
        rewrite Hc in He.
        split; [simpl; congruence | exact He].
      * destruct (run_calls (with_contents q l) (List.last (y :: l) value) cs)
          as [[[rs1 v1] q2]|] eqn:Hrest; [|discriminate].
        inversion Hrun; subst. destruct (IH _ _ _ _ _ Hrest) as [Hl He].
        rewrite contents_with_contents in He.
        split; [simpl; congruence|]. cbn [inserted removed length]. lia.
Qed.

Lemma successes_account_for_length_witness :
  let cs := [call_produce 4; call_produce 5; call_consume; call_produce 6;
             call_produce 7] in
  let rs := [true; false; true; true; false] in
  length rs = length cs
  /\ Nat.add (length (contents (SizeLimitedQueue (Queue [6]) 1))) (removed cs rs) =
     Nat.add (length (contents (SizeLimitedQueue (Queue []) 1))) (inserted cs rs).
Proof.
  cbv zeta.
  apply (successes_account_for_length
           [call_produce 4; call_produce 5; call_consume; call_produce 6;
            call_produce 7]
           (SizeLimitedQueue (Queue []) 1) 0
           [true; false; true; true; false] 4).
  reflexivity.
Defined.

(** X6.  With a [SafeQueue] anywhere in the chain no sequence of [produce]
    and [consume] calls runs into undefined behaviour, and the [SafeQueue]
    is still in the chain afterwards. *)
Theorem guarded_chain_is_always_defined :
  forall (cs : list queue_call) (q : IQueue) (value : Z),
    guarded q = true ->
    exists rs v' q',
      run_calls q value cs = Defined (rs, v', q') /\ guarded q' = true.
Proof.
  induction cs as [| c cs IH]; intros q value Hg.
  - exists [], value, q. split; [reflexivity | exact Hg].
  - destruct c as [x |]; cbn [run_calls].
    + destruct (produce_keeps_chain q x) as [_ Hg1].
      destruct (produce q x) as [r q1]. cbn [snd] in Hg1.
      destruct (IH q1 value) as [rs [v' [q' [Hrun Hg']]]]; [congruence|].
      rewrite Hrun. exists (r :: rs), v', q'. split; [reflexivity | exact Hg'].
    + assert (Hdef : exists r v1 q1, consume q value = Defined (r, v1, q1)).
      { rewrite consume_spec. destruct (contents q); [rewrite Hg|];
          eexists; eexists; eexists; reflexivity. }
      destruct Hdef as [r [v1 [q1 Hcons]]].
      destruct (consume_keeps_chain _ _ _ _ _ Hcons) as [_ [Hg1 _]].
      rewrite Hcons.
      destruct (IH q1 v1) as [rs [v' [q' [Hrun Hg']]]]; [congruence|].
      rewrite Hrun. exists (r :: rs), v', q'. split; [reflexivity | exact Hg'].
Qed.

Lemma guarded_chain_is_always_defined_witness :
  exists rs v' q',
    run_calls (SizeLimitedQueue (SafeQueue (Queue [])) 1) 0
      [call_consume; call_produce 3; call_consume; call_consume] =
      Defined (rs, v', q')
    /\ guarded q' = true.
Proof.
  apply (guarded_chain_is_always_defined
           [call_consume; call_produce 3; call_consume; call_consume]
           (SizeLimitedQueue (SafeQueue (Queue [])) 1) 0).
  reflexivity.
Defined.

(** X7.  Emptying a queue with as many [consume] calls as it has elements:
    every call succeeds and every call stores the same value, the element
    that was at the back when the first call was made; the elements in front
    of it are dropped without ever being returned. *)
Theorem draining_returns_the_newest_each_time :
  forall (q : IQueue) (value : Z),
    consume_trace (length (contents q)) q value =
      Defined (repeat (true, List.last (contents q) value)
                      (length (contents q)),
               with_contents q []).
Proof.
  intros q value. remember (contents q) as l eqn:Hl.
  revert q value Hl.
  induction l as [| x l IH]; intros q value Hl.
  - simpl. now rewrite Hl, with_contents_same.
  - cbn [length consume_trace]. rewrite consume_spec, <- Hl.
    rewrite (IH (with_contents q l) (List.last (x :: l) value))
      by (now rewrite contents_with_contents).
    rewrite with_contents_twice.
    destruct l as [| y l']; [reflexivity|].
    change (List.last (x :: y :: l') value) with (List.last (y :: l') value).
    rewrite (last_nonempty_default l' y (List.last (y :: l') value) value).
    reflexivity.
Qed.

(* ------------------------------------------------------------------ *)
(** ** Further properties of the strategies                             *)
(* ------------------------------------------------------------------ *)

Section ScheduleLemmas.

Lemma class_notify_one (cv : condvar) (pick : nat) (s : system) :
  class (notify_one cv pick s) = class s.
Proof.
  unfold notify_one. destruct (waiters cv s); [reflexivity|].
  destruct (nth_error _ _); reflexivity.
Qed.

Lemma slept_notify_one (cv : condvar) (pick : nat) (s : system) :
  slept (notify_one cv pick s) = slept s.
Proof.
  unfold notify_one. destruct (waiters cv s); [reflexivity|].
  destruct (nth_error _ _); reflexivity.
Qed.

(** What one transition can do to the strategy object outside its table of
    calls: nothing to the class; to the queue, nothing, one [produce] or one
    defined [consume]; to the log, nothing or one entry, the policy of the
    [SleepProduceConsume] object. *)
Lemma step_effect (e : event) (s s' : system) :
  step e s = Some s' ->
  class s' = class s
  /\ (pQueue s' = pQueue s
      \/ (exists x, pQueue s' = snd (produce (pQueue s) x))
      \/ (exists value r v, consume (pQueue s) value = Defined (r, v, pQueue s')))
  /\ (slept s' = slept s
      \/ exists p, class s = SleepProduceConsume p /\ slept s' = slept s ++ [p]).
Proof.
  intros Hstep. destruct e as [o c0 | t pick | t | b]; cbn [step] in Hstep.
  - inversion Hstep; subst. cbn. auto.
  - destruct (nth_error (calls s) t) as [c|]; [|discriminate].
    unfold run_call in Hstep.
    destruct (class s) as [| sleep |] eqn:Hclass; destruct (at_point c);
      try discriminate.
    + inversion Hstep; subst. cbn. auto.
    + unfold BruteForce.body in Hstep. destruct (op c) as [x |].
      * destruct (produce (pQueue s) x) as [r q'] eqn:Hp.
        inversion Hstep; subst. cbn. split; [assumption|].
        split; [|auto]. right. left. exists x. now rewrite Hp.
      * destruct (consume (pQueue s) (consumedValue c)) as [[[r v] q']|] eqn:Hc;
          inversion Hstep; subst; cbn; (split; [assumption|]); split; auto.
        right. right. eauto.
    + inversion Hstep; subst. cbn. auto.
    + unfold Sleep.body in Hstep. destruct (op c) as [x |].
      * destruct (produce (pQueue s) x) as [[|] q'] eqn:Hp;
          inversion Hstep; subst; cbn; (split; [assumption|]);
          (split; [right; left; exists x; now rewrite Hp|]); eauto.
      * destruct (consume (pQueue s) (consumedValue c)) as [[[[|] v] q']|] eqn:Hc;
          inversion Hstep; subst; cbn; (split; [assumption|]);
          (split; [eauto 6|]); eauto.
    + unfold Wait.predicate in Hstep. destruct (stop s).
      * inversion Hstep; subst. cbn. auto.
      * destruct (op c) as [x |].
        -- destruct (produce (pQueue s) x) as [[|] q'] eqn:Hp.
           ++ destruct (empty (pQueue s)); inversion Hstep; subst;
                rewrite ?class_notify_one, ?pQueue_notify_one, ?slept_notify_one;
                cbn; (split; [assumption|]);
                (split; [right; left; exists x; now rewrite Hp|]); auto.
           ++ inversion Hstep; subst. cbn. split; [assumption|].
              split; [right; left; exists x; now rewrite Hp|]. auto.
        -- destruct (consume (pQueue s) (consumedValue c)) as [[[[|] v] q']|] eqn:Hc.
           ++ destruct (full (pQueue s)); inversion Hstep; subst;
                rewrite ?class_notify_one, ?pQueue_notify_one, ?slept_notify_one;
                cbn; (split; [assumption|]); (split; [eauto 6|]); auto.
           ++ inversion Hstep; subst. cbn. split; [assumption|].
              split; [eauto 6|]. auto.
           ++ inversion Hstep; subst. cbn. auto.
  - destruct (nth_error (calls s) t) as [c|]; [|discriminate].
    destruct (at_point c); try discriminate.
    inversion Hstep; subst. cbn. auto.
  - inversion Hstep; subst. cbn. auto.
Qed.

Lemma reachable_class (k : strategy_class) (q : IQueue) (s : system) :
  reachable k q s -> class s = k.
Proof.
  induction 1 as [| s e s' _ IH Hstep]; [reflexivity|].
  destruct (step_effect _ _ _ Hstep) as [Hc _]. congruence.
Qed.

Lemma nth_error_replace_nth {A : Type} (x : A) (l : list A) :
  forall n, (n < length l)%nat -> nth_error (replace_nth n x l) n = Some x.
Proof.
  induction l as [| y l IH]; intros n Hn; simpl in Hn; [lia|].
  destruct n; simpl; [reflexivity|]. apply IH. lia.
Qed.

Lemma length_replace_nth {A : Type} (x : A) (l : list A) :
  forall n, length (replace_nth n x l) = length l.
Proof.
  induction l as [| y l IH]; intros n; [reflexivity|].
  destruct n; simpl; [reflexivity|]. now rewrite IH.
Qed.

Lemma nth_error_last {A : Type} (l : list A) (x : A) :
  nth_error (l ++ [x]) (length l) = Some x.
Proof.
  rewrite nth_error_app2 by lia. now rewrite Nat.sub_diag.
Qed.

Lemma point_of_set_call (t : nat) (c : call) (s : system) :
  (t < length (calls s))%nat -> point_of t (set_call t c s) = Some (at_point c).
Proof.
  intros Ht. unfold point_of. cbn [set_call calls].
  now rewrite nth_error_replace_nth.
Qed.

Lemma run_app (es1 es2 : list event) :
  forall s, run (es1 ++ es2) s =
            match run es1 s with Some s' => run es2 s' | None => None end.
Proof.
  induction es1 as [| e es1 IH]; intros s; [reflexivity|].
  simpl. destruct (step e s); [apply IH | reflexivity].
Qed.

Lemma reachable_run (k : strategy_class) (q : IQueue) (es : list event) :
  forall s s', reachable k q s -> run es s = Some s' -> reachable k q s'.
Proof.
  induction es as [| e es IH]; intros s s' Hr Hrun; simpl in Hrun.
  - inversion Hrun; subst. exact Hr.
  - destruct (step e s) as [s1|] eqn:Hstep; [|discriminate].
    apply (IH s1 s'); [|exact Hrun].
    eapply reachable_step; eassumption.
Qed.

End ScheduleLemmas.



(** X9.  Only [WaitProduceConsume] ever suspends a call: on a
    [BruteForceProduceConsume] or [SleepProduceConsume] object, in every
    state reached, no call is waiting on either condition variable, so
    there is nothing a notification or a spurious wake-up could resume. *)
Theorem only_wait_strategy_suspends :
  forall (k : strategy_class) (q : IQueue) (s : system),
    reachable k q s ->
    k <> WaitProduceConsume ->
    (forall cv, waiters cv s = [])
    /\ (forall t, step (Spurious t) s = None)
    /\ (forall t cv, point_of t s <> Some (Waiting cv)).
Proof.
  intros k q s Hr Hk.
  assert (Hinv : Forall (fun c => forall cv, at_point c <> Waiting cv) (calls s)).
  { induction Hr as [| s e s' Hr IH Hstep]; [constructor|].
    pose proof (reachable_class _ _ _ Hr) as Hclass.
    destruct e as [o c0 | t pick | t | b]; cbn [step] in Hstep.
    - inversion Hstep; subst. cbn [calls]. apply Forall_app. split; [exact IH|].
      constructor; [|constructor]. unfold enter. simpl.
      destruct (class s); intros cv; discriminate.
    - destruct (nth_error (calls s) t) as [c|]; [|discriminate].
      unfold run_call in Hstep.
      destruct (class s) as [| sleep |] eqn:Hcl; [| |congruence];
        destruct (at_point c); try discriminate.
      + inversion Hstep; subst. cbn [set_call calls].
        apply Forall_replace_nth; [exact IH|].
        unfold BruteForce.loop_test, return_value.
        destruct (negb (stop s) && negb (flag c)); simpl;
          [|destruct (op c)]; intros cv; discriminate.
      + unfold BruteForce.body in Hstep.
        destruct (op c) as [x |];
          [destruct (produce (pQueue s) x)
          |destruct (consume (pQueue s) (consumedValue c)) as [[[r v] q0]|]];
          inversion Hstep; subst; cbn [set_call set_queue calls];
          (apply Forall_replace_nth; [exact IH|]); simpl; intros cv; discriminate.
      + inversion Hstep; subst. cbn [set_call calls].
        apply Forall_replace_nth; [exact IH|].
        unfold Sleep.loop_test.
        destruct (negb (stop s)); [|destruct (op c)]; simpl; intros cv;
          discriminate.
      + unfold Sleep.body in Hstep.
        destruct (op c) as [x |];
          [destruct (produce (pQueue s) x) as [[|] q0]
          |destruct (consume (pQueue s) (consumedValue c)) as [[[[|] v] q0]|]];
          inversion Hstep; subst; cbn [log_sleep set_call set_queue calls];
          (apply Forall_replace_nth; [exact IH|]); simpl; intros cv; discriminate.
    - destruct (nth_error (calls s) t) as [c|] eqn:Hnth; [|discriminate].
      destruct (at_point c) eqn:Hat; try discriminate.
      rewrite Forall_forall in IH.
      exfalso. apply (IH c (nth_error_In _ _ Hnth) cv). exact Hat.
    - inversion Hstep; subst. exact IH. }
  assert (Hpt : forall t cv, point_of t s <> Some (Waiting cv)).
  { intros t cv. unfold point_of.
    destruct (nth_error (calls s) t) as [c|] eqn:Hnth; [|discriminate].
    simpl. intros H. inversion H as [Hat].
    rewrite Forall_forall in Hinv.
    exact (Hinv c (nth_error_In _ _ Hnth) cv Hat). }
  split; [|split; [|exact Hpt]].
  - intros cv. apply waiters_from_none.
    eapply Forall_impl; [|exact Hinv]. intros c Hc. apply Hc.
  - intros t. cbn [step].
    destruct (nth_error (calls s) t) as [c|] eqn:Hnth; [|reflexivity].
    destruct (at_point c) eqn:Hat; try reflexivity.
    exfalso. apply (Hpt t cv). unfold point_of. now rewrite Hnth, <- Hat.
Qed.

Lemma only_wait_strategy_suspends_witness :
  let s := mkSystem (SleepProduceConsume yield) (SafeQueue (Queue [])) false
             [mkCall consume_call LoopTest 0 false] [yield] in
  (forall cv, waiters cv s = [])
  /\ (forall t, step (Spurious t) s = None)
  /\ (forall t cv, point_of t s <> Some (Waiting cv)).
Proof.
  cbv zeta.
  apply (only_wait_strategy_suspends (SleepProduceConsume yield)
           (SafeQueue (Queue []))).
  - apply (reachable_run _ _ [Call consume_call false; Run 0 0; Run 0 0]
             _ _ (reachable_new _ _)).
    reflexivity.
  - discriminate.
Defined.



(** X11.  A call entered while [stop] is set is over after its first step
    and has not touched the queue or slept: [produce] returns without
    inserting on every strategy, and [consume] on
    [BruteForceProduceConsume] and [WaitProduceConsume] returns 0 without
    removing, whatever the state of the queue and of the other calls. *)
Theorem call_on_stopped_strategy_returns_at_once :
  forall (s : system) (value : Z) (consumed0 : bool) (pick : nat),
    stop s = true ->
    (exists s',
       run [Call (produce_call value) consumed0; Run (length (calls s)) pick] s
         = Some s'
       /\ point_of (length (calls s)) s' = Some (Returned None)
       /\ pQueue s' = pQueue s /\ slept s' = slept s)
    /\ (class s = BruteForceProduceConsume \/ class s = WaitProduceConsume ->
        exists s',
          run [Call consume_call consumed0; Run (length (calls s)) pick] s
            = Some s'
          /\ point_of (length (calls s)) s' = Some (Returned (Some 0))
          /\ pQueue s' = pQueue s /\ slept s' = slept s).
Proof.
  intros s value consumed0 pick Hstop. split; [|intros Hclass];
    cbn [run step calls]; rewrite nth_error_last;
    unfold run_call, enter; cbn [class stop pQueue at_point].
  - destruct (class s) as [| sleep |];
      cbn [BruteForce.loop_test Sleep.loop_test Wait.predicate flag op];
      rewrite Hstop; cbn [negb andb];
      eexists; (split; [reflexivity|]);
      (split; [apply point_of_set_call; cbn; rewrite length_app; simpl; lia|]);
      split; reflexivity.
  - destruct Hclass as [Hc | Hc]; rewrite Hc;
      cbn [BruteForce.loop_test Wait.predicate flag op];
      rewrite Hstop; cbn [negb andb];
      eexists; (split; [reflexivity|]);
      (split; [apply point_of_set_call; cbn; rewrite length_app; simpl; lia|]);
      split; reflexivity.
Qed.

Lemma call_on_stopped_strategy_returns_at_once_witness :
  let s := mkSystem WaitProduceConsume (SafeQueue (Queue [4])) true
             [mkCall consume_call (Waiting onProduceToEmpty) 0 false] [] in
  (exists s',
     run [Call (produce_call 9) false; Run 1 0] s = Some s'
     /\ point_of 1 s' = Some (Returned None)
     /\ pQueue s' = pQueue s /\ slept s' = slept s)
  /\ (exists s',
        run [Call consume_call false; Run 1 0] s = Some s'
        /\ point_of 1 s' = Some (Returned (Some 0))
        /\ pQueue s' = pQueue s /\ slept s' = slept s).
Proof.
  cbv zeta.
  destruct (call_on_stopped_strategy_returns_at_once
              (mkSystem WaitProduceConsume (SafeQueue (Queue [4])) true
                 [mkCall consume_call (Waiting onProduceToEmpty) 0 false] [])
              9 false 0 eq_refl) as [Hp Hc].
  split; [exact Hp | exact (Hc (or_intror eq_refl))].
Defined.

(** X12.  A call made alone on a new strategy object, with [stop] unset:
    on a queue that is not full [produce(value)] returns after its first
    attempt with the value at the back of the queue; on a queue that is not
    empty [consume()] returns after its first attempt the element that was
    at the back, the front element having been dropped.  This holds for the
    three strategies, and none of them sleeps. *)
Theorem first_attempt_succeeds :
  forall (k : strategy_class) (q : IQueue) (value : Z),
    (full q = false ->
     exists s,
       run (Call (produce_call value) false :: first_attempt k 0)
           (new_strategy k q) = Some s
       /\ point_of 0 s = Some (Returned None)
       /\ pQueue s = with_contents q (contents q ++ [value])
       /\ slept s = [])
    /\ (contents q <> [] ->
        exists s,
          run (Call consume_call false :: first_attempt k 0)
              (new_strategy k q) = Some s
          /\ point_of 0 s = Some (Returned (Some (List.last (contents q) 0)))
          /\ pQueue s = with_contents q (List.tl (contents q))
          /\ slept s = []).
Proof.
  intros k q value. split.
  - intros Hfull.
    destruct k as [| sleep |]; cbn;
      rewrite ?produce_spec, ?Hfull; cbn.
    + eexists. repeat split.
    + eexists. repeat split.
    + destruct (empty q); cbn; eexists; repeat split.
  - intros Hne. destruct (contents q) as [| front rest] eqn:Hc; [contradiction|].
    destruct k as [| sleep |]; cbn;
      rewrite ?consume_spec, ?Hc; cbn.
    + eexists. repeat split.
    + eexists. repeat split.
    + destruct (full q); cbn; eexists; repeat split.
Qed.

Lemma first_attempt_succeeds_witness :
  (exists s,
     run (Call (produce_call 3) false :: first_attempt WaitProduceConsume 0)
         (new_strategy WaitProduceConsume (SizeLimitedQueue (SafeQueue (Queue [1; 2])) 3))
       = Some s
     /\ point_of 0 s = Some (Returned None)
     /\ pQueue s = SizeLimitedQueue (SafeQueue (Queue [1; 2; 3])) 3
     /\ slept s = [])
  /\ (exists s,
        run (Call consume_call false :: first_attempt BruteForceProduceConsume 0)
            (new_strategy BruteForceProduceConsume (Queue [1; 2])) = Some s
        /\ point_of 0 s = Some (Returned (Some 2))
        /\ pQueue s = Queue [2]
        /\ slept s = []).
Proof.
  split.
  - apply (proj1 (first_attempt_succeeds WaitProduceConsume
                    (SizeLimitedQueue (SafeQueue (Queue [1; 2])) 3) 3)).
    reflexivity.
  - apply (proj2 (first_attempt_succeeds BruteForceProduceConsume
                    (Queue [1; 2]) 0)).
    discriminate.
Defined.

Section Polling.

Variable q : IQueue.

(** One failed attempt of the only call of a polling strategy brings the
    call back to its loop test; [SleepProduceConsume] has slept once. *)
Lemma failed_round (k : strategy_class) (c : call) (l : list SleepStrategy) :
  at_point c = LoopTest ->
  flag c = false ->
  match op c with
  | produce_call _ => full q = true
  | consume_call => contents q = [] /\ guarded q = true
  end ->
  match k with
  | BruteForceProduceConsume =>
      run [Run 0 0; Run 0 0] (mkSystem k q false [c] l) =
      Some (mkSystem k q false [c] l)
  | SleepProduceConsume p =>
      run [Run 0 0; Run 0 0] (mkSystem k q false [c] l) =
      Some (mkSystem k q false [c] (l ++ [p]))
  | WaitProduceConsume => True
  end.
Proof.
  destruct c as [o pt cv fl]. cbn [at_point flag op]. intros -> -> Hq.
  destruct k as [| p |]; [| |exact I]; destruct o as [x |]; cbn;
    rewrite ?produce_spec, ?consume_spec.
  - rewrite Hq. reflexivity.
  - destruct Hq as [-> ->]. reflexivity.
  - rewrite Hq. reflexivity.
  - destruct Hq as [-> ->]. reflexivity.
Qed.

Lemma failed_rounds (k : strategy_class) (c : call) (n : nat) :
  at_point c = LoopTest ->
  flag c = false ->
  match op c with
  | produce_call _ => full q = true
  | consume_call => contents q = [] /\ guarded q = true
  end ->
  forall l,
    match k with
    | BruteForceProduceConsume =>
        run (failed_attempts n 0) (mkSystem k q false [c] l) =
        Some (mkSystem k q false [c] l)
    | SleepProduceConsume p =>
        run (failed_attempts n 0) (mkSystem k q false [c] l) =
        Some (mkSystem k q false [c] (l ++ repeat p n))
    | WaitProduceConsume => True
    end.
Proof.
  intros Hat Hfl Hq. unfold failed_attempts.
  induction n as [| n IH]; intros l.
  - destruct k; cbn; rewrite ?app_nil_r; auto.
  - pose proof (failed_round k c l Hat Hfl Hq) as Hone.
    specialize (IH (match k with
                    | SleepProduceConsume p => l ++ [p]
                    | _ => l
                    end)).
    destruct k as [| p |]; [| |exact I];
      cbn [repeat concat]; rewrite run_app, Hone, IH; [reflexivity|].
    rewrite <- app_assoc. reflexivity.
Qed.

End Polling.



(** X14.  [produce(value)] of the two polling strategies on a full queue,
    with [stop] unset and nobody consuming: however many attempts are made
    the call has not returned and the queue is untouched;
    [SleepProduceConsume] has slept exactly once per failed attempt.  When
    [stop] is then set, both calls return at their next loop test without
    having inserted the value. *)
Theorem produce_polls_a_full_queue :
  forall (q : IQueue) (value : Z) (n : nat) (p : SleepStrategy),
    full q = true ->
    run (Call (produce_call value) false :: failed_attempts n 0)
        (new_strategy BruteForceProduceConsume q) =
      Some (mkSystem BruteForceProduceConsume q false
              [mkCall (produce_call value) LoopTest 0 false] [])
    /\ run (Call (produce_call value) false :: failed_attempts n 0)
           (new_strategy (SleepProduceConsume p) q) =
         Some (mkSystem (SleepProduceConsume p) q false
                 [mkCall (produce_call value) LoopTest 0 false] (repeat p n))
    /\ run (Call (produce_call value) false
              :: failed_attempts n 0 ++ [SetStop true; Run 0 0])
           (new_strategy BruteForceProduceConsume q) =
         Some (mkSystem BruteForceProduceConsume q true
                 [mkCall (produce_call value) (Returned None) 0 false] [])
    /\ run (Call (produce_call value) false
              :: failed_attempts n 0 ++ [SetStop true; Run 0 0])
           (new_strategy (SleepProduceConsume p) q) =
         Some (mkSystem (SleepProduceConsume p) q true
                 [mkCall (produce_call value) (Returned None) 0 false]
                 (repeat p n)).
Proof.
  intros q value n p Hfull.
  pose proof (failed_rounds q BruteForceProduceConsume
                (mkCall (produce_call value) LoopTest 0 false) n
                eq_refl eq_refl Hfull []) as Hbf.
  pose proof (failed_rounds q (SleepProduceConsume p)
                (mkCall (produce_call value) LoopTest 0 false) n
                eq_refl eq_refl Hfull []) as Hsl.
  cbn [app] in Hsl.
  split; [exact Hbf|]. split; [exact Hsl|]. split.
  - change (run (failed_attempts n 0 ++ [SetStop true; Run 0 0])
              (mkSystem BruteForceProduceConsume q false
                 [mkCall (produce_call value) LoopTest 0 false] []) =
            Some (mkSystem BruteForceProduceConsume q true
                    [mkCall (produce_call value) (Returned None) 0 false] [])).
    rewrite run_app, Hbf. reflexivity.
  - change (run (failed_attempts n 0 ++ [SetStop true; Run 0 0])
              (mkSystem (SleepProduceConsume p) q false
                 [mkCall (produce_call value) LoopTest 0 false] []) =
            Some (mkSystem (SleepProduceConsume p) q true
                    [mkCall (produce_call value) (Returned None) 0 false]
                    (repeat p n))).
    rewrite run_app, Hsl. reflexivity.
Qed.

Lemma produce_polls_a_full_queue_witness :
  run (Call (produce_call 9) false :: failed_attempts 2 0 ++ [SetStop true; Run 0 0])
      (new_strategy (SleepProduceConsume yield) (SizeLimitedQueue (Queue [5]) 1)) =
    Some (mkSystem (SleepProduceConsume yield) (SizeLimitedQueue (Queue [5]) 1) true
            [mkCall (produce_call 9) (Returned None) 0 false] [yield; yield]).
Proof.
  exact (proj2 (proj2 (proj2 (produce_polls_a_full_queue
                         (SizeLimitedQueue (Queue [5]) 1) 9 2 yield eq_refl)))).
Defined.

(** X15.  [WaitProduceConsume], the wake-up that works: a [consume()] on an
    empty queue protected by a [SafeQueue] suspends on [onProduceToEmpty];
    a [produce(value)] that then finds the queue empty inserts the value,
    notifies [onProduceToEmpty] and returns; the consumer is woken, runs its
    predicate again and returns [value], leaving the queue empty as it
    was. *)
Theorem produce_to_empty_wakes_the_consumer :
  forall (q : IQueue) (value : Z) (p1 p2 p3 : nat),
    contents q = [] ->
    guarded q = true ->
    full q = false ->
    exists s1 s2 s3,
      run [Call consume_call false; Run 0 p1] (new_strategy WaitProduceConsume q)
        = Some s1
      /\ point_of 0 s1 = Some (Waiting onProduceToEmpty)
      /\ pQueue s1 = q
      /\ run [Call (produce_call value) false; Run 1 p2] s1 = Some s2
      /\ point_of 1 s2 = Some (Returned None)
      /\ point_of 0 s2 = Some Locked
      /\ contents (pQueue s2) = [value]
      /\ step (Run 0 p3) s2 = Some s3
      /\ point_of 0 s3 = Some (Returned (Some value))
      /\ pQueue s3 = q.
Proof.
  intros q value p1 p2 p3 Hc Hg Hfull.
  assert (Hq : with_contents q [] = q) by (now rewrite <- Hc, with_contents_same).
  exists (mkSystem WaitProduceConsume q false
            [mkCall consume_call (Waiting onProduceToEmpty) 0 false] []).
  exists (mkSystem WaitProduceConsume (with_contents q [value]) false
            [mkCall consume_call Locked 0 false;
             mkCall (produce_call value) (Returned None) 0 false] []).
  exists (mkSystem WaitProduceConsume q false
            [mkCall consume_call (Returned (Some value)) value false;
             mkCall (produce_call value) (Returned None) 0 false] []).
  split; [|split; [reflexivity|split; [reflexivity|]]].
  { cbn. rewrite consume_spec, Hc, Hg. reflexivity. }
  split; [|split; [reflexivity|split; [reflexivity|]]].
  { cbn. rewrite produce_spec, Hfull, empty_contents, Hc. cbn.
    reflexivity. }
  split; [cbn [pQueue]; apply contents_with_contents|].
  split; [|split; reflexivity].
  cbn. rewrite consume_spec, contents_with_contents, with_contents_twice, Hq.
  cbn. destruct (full (with_contents q [value])); reflexivity.
Qed.

Lemma produce_to_empty_wakes_the_consumer_witness :
  exists s3,
    run [Call consume_call false; Run 0 0; Call (produce_call 5) false;
         Run 1 0; Run 0 0]
        (new_strategy WaitProduceConsume (SizeLimitedQueue (SafeQueue (Queue [])) 1))
      = Some s3
    /\ point_of 0 s3 = Some (Returned (Some 5))
    /\ pQueue s3 = SizeLimitedQueue (SafeQueue (Queue [])) 1.
Proof.
  destruct (produce_to_empty_wakes_the_consumer
              (SizeLimitedQueue (SafeQueue (Queue [])) 1) 5 0 0 0
              eq_refl eq_refl eq_refl)
    as [s1 [s2 [s3 [H1 [_ [_ [H2 [_ [_ [_ [H3 [Hp Hq]]]]]]]]]]]].
  exists s3. split; [|split; [exact Hp | exact Hq]].
  change (run ([Call consume_call false; Run 0 0] ++
               [Call (produce_call 5) false; Run 1 0] ++ [Run 0 0])
            (new_strategy WaitProduceConsume
               (SizeLimitedQueue (SafeQueue (Queue [])) 1)) = Some s3).
  rewrite run_app, H1, run_app, H2. cbn [run]. now rewrite H3.
Defined.

(** X16.  [setStop] notifies nobody.  In a state where every call is either
    suspended in [wait] or over, no call can take a step after [setStop(b)]:
    the suspended calls stay suspended.  A suspended call of
    [WaitProduceConsume] that does wake up (spuriously) once [stop] is set
    returns at once without touching the queue. *)
Theorem setStop_wakes_nobody :
  forall (s : system) (b : bool),
    forallb idle (calls s) = true ->
    calls (setStop b s) = calls s
    /\ (forall cv, waiters cv (setStop b s) = waiters cv s)
    /\ (forall t pick, step (Run t pick) (setStop b s) = None)
    /\ (forall t c cv pick,
          class s = WaitProduceConsume ->
          nth_error (calls s) t = Some c ->
          at_point c = Waiting cv ->
          exists s',
            run [Spurious t; Run t pick] (setStop true s) = Some s'
            /\ point_of t s' = Some (return_value c)
            /\ pQueue s' = pQueue s).
Proof.
  intros s b Hidle.
  split; [reflexivity|]. split; [reflexivity|]. split.
  - intros t pick. cbn [step setStop calls].
    destruct (nth_error (calls s) t) as [c|] eqn:Hnth; [|reflexivity].
    rewrite forallb_forall in Hidle.
    specialize (Hidle c (nth_error_In _ _ Hnth)).
    unfold idle in Hidle. unfold run_call, setStop. cbn [class].
    destruct (class s); destruct (at_point c); try discriminate; reflexivity.
  - intros t c cv pick Hclass Hnth Hat.
    assert (Ht : (t < length (calls s))%nat)
      by (apply nth_error_Some; congruence).
    cbn [run step setStop calls]. rewrite Hnth, Hat.
    cbn [set_call calls]. rewrite nth_error_replace_nth by exact Ht.
    unfold run_call.
    cbn [set_call setStop class stop pQueue at_point move_to]. rewrite Hclass.
    cbn [Wait.predicate set_queue class pQueue stop calls slept].
    eexists. split; [reflexivity|]. split; [|reflexivity].
    rewrite point_of_set_call.
    + cbn [move_to at_point return_value op consumedValue]. reflexivity.
    + cbn [calls set_queue set_call setStop].
      rewrite length_replace_nth. exact Ht.
Qed.

Lemma setStop_wakes_nobody_witness :
  let s := mkSystem WaitProduceConsume (SafeQueue (Queue [])) false
             [mkCall consume_call (Waiting onProduceToEmpty) 0 false] [] in
  (forall t pick, step (Run t pick) (setStop true s) = None)
  /\ exists s',
       run [Spurious 0; Run 0 0] (setStop true s) = Some s'
       /\ point_of 0 s' = Some (Returned (Some 0))
       /\ pQueue s' = SafeQueue (Queue []).
Proof.
  cbv zeta.
  destruct (setStop_wakes_nobody
              (mkSystem WaitProduceConsume (SafeQueue (Queue [])) false
                 [mkCall consume_call (Waiting onProduceToEmpty) 0 false] [])
              true eq_refl) as [_ [_ [Hrun Hwake]]].
  split; [exact Hrun|].
  exact (Hwake 0%nat (mkCall consume_call (Waiting onProduceToEmpty) 0 false)
           onProduceToEmpty 0%nat eq_refl eq_refl eq_refl).
Defined.

(* ------------------------------------------------------------------ *)
(** ** Further properties of the tester                                 *)
(* ------------------------------------------------------------------ *)

(** X17.  The pause computed by [randomSleepTime]: for a positive
    [sleepTime] (small enough for the sum to fit an [int]) and any number
    [rand() >= 0], it is defined, at least half of [sleepTime] and less
    than one and a half times [sleepTime]; with the default [sleepTime] of
    100 it lies in 50..149.  For [sleepTime] 0 the computation divides by
    zero and is undefined. *)
Theorem randomSleepTime_bounds :
  (forall rand, randomSleepTime 0 rand = UndefinedBehavior)
  /\ (forall sleepTime rand,
        0 < sleepTime ->
        0 <= rand ->
        Z.quot sleepTime 2 + sleepTime <= 2 ^ 31 ->
        exists t,
          randomSleepTime sleepTime rand = Defined t
          /\ Z.quot sleepTime 2 <= t < Z.quot sleepTime 2 + sleepTime
          /\ t <= Z.quot sleepTime 2 + rand)
  /\ (forall rand,
        0 <= rand ->
        exists t,
          randomSleepTime (producerSleepTime new_tester) rand = Defined t
          /\ 50 <= t < 150).
Proof.
  assert (Hmain : forall sleepTime rand,
             0 < sleepTime -> 0 <= rand ->
             Z.quot sleepTime 2 + sleepTime <= 2 ^ 31 ->
             exists t,
               randomSleepTime sleepTime rand = Defined t
               /\ Z.quot sleepTime 2 <= t < Z.quot sleepTime 2 + sleepTime
               /\ t <= Z.quot sleepTime 2 + rand).
  { intros sleepTime rand Hs Hr Hfit.
    pose proof (Z.rem_bound_pos rand sleepTime Hr Hs) as Hrem.
    assert (Hle : Z.rem rand sleepTime <= rand).
    { rewrite Z.rem_mod_nonneg by lia. apply Z.mod_le; lia. }
    assert (Hq : 0 <= Z.quot sleepTime 2) by (apply Z.quot_pos; lia).
    exists (Z.quot sleepTime 2 + Z.rem rand sleepTime).
    unfold randomSleepTime.
    replace (sleepTime =? 0) with false by (symmetry; apply Z.eqb_neq; lia).
    cbv zeta.
    replace (- 2 ^ 31 <=? Z.quot sleepTime 2 + Z.rem rand sleepTime) with true
      by (symmetry; apply Z.leb_le; lia).
    replace (Z.quot sleepTime 2 + Z.rem rand sleepTime <? 2 ^ 31) with true
      by (symmetry; apply Z.ltb_lt; lia).
    split; [reflexivity | lia]. }
  split; [reflexivity|]. split; [exact Hmain|].
  intros rand Hr.
  destruct (Hmain 100 rand) as [t [Ht [Hb _]]]; [lia | exact Hr | cbn; lia|].
  exists t. split; [exact Ht|].
  change (Z.quot 100 2) with 50 in Hb. lia.
Qed.

Lemma randomSleepTime_bounds_witness :
  (exists t,
     randomSleepTime 1000 32767 = Defined t
     /\ Z.quot 1000 2 <= t < Z.quot 1000 2 + 1000
     /\ t <= Z.quot 1000 2 + 32767)
  /\ (exists t,
        randomSleepTime (producerSleepTime new_tester) 41 = Defined t
        /\ 50 <= t < 150).
Proof.
  destruct randomSleepTime_bounds as [_ [Hgen Hdefault]].
  split.
  - apply (Hgen 1000 32767); [lia | lia | vm_compute; discriminate].
  - apply (Hdefault 41). lia.
Defined.

Section Notifications.

Lemma nth_error_replace_nth_other {A : Type} (x : A) (l : list A) :
  forall n m, m <> n -> nth_error (replace_nth n x l) m = nth_error l m.
Proof.
  induction l as [| y l IH]; intros n m Hne; [reflexivity|].
  destruct n, m; simpl; try reflexivity; [congruence|].
  apply IH. congruence.
Qed.

Lemma point_of_set_call_other (t t' : nat) (c : call) (s : system) :
  t' <> t -> point_of t' (set_call t c s) = point_of t' s.
Proof.
  intros Hne. unfold point_of. cbn [set_call calls].
  now rewrite nth_error_replace_nth_other.
Qed.

Lemma reachable_never_on_full (k : strategy_class) (q : IQueue) (s : system) :
  reachable k q s -> Forall never_on_full (calls s).
Proof.
  induction 1 as [| s e s' _ IH Hstep]; [constructor|].
  eapply step_never_on_full; eassumption.
Qed.

Lemma notify_full_is_void (pick : nat) (s : system) :
  Forall never_on_full (calls s) -> notify_one onConsumeFromFull pick s = s.
Proof.
  intros H. unfold notify_one, waiters.
  now rewrite (waiters_from_none onConsumeFromFull (calls s) 0 H).
Qed.

End Notifications.

(** X18.  A step of a [consume()] call never resumes another call, on any
    strategy and in any state reached: the only notification [consume]
    sends goes to [onConsumeFromFull], on which nothing waits.  So every
    other call, a producer suspended on a full queue included, stands after
    the step where it stood before. *)
Theorem consume_step_wakes_nobody :
  forall (k : strategy_class) (q : IQueue) (s s' : system)
         (t pick : nat) (c : call),
    reachable k q s ->
    nth_error (calls s) t = Some c ->
    op c = consume_call ->
    step (Run t pick) s = Some s' ->
    forall t', t' <> t -> point_of t' s' = point_of t' s.
Proof.
  intros k q s s' t pick c Hr Hnth Hop Hstep t' Hne.
  pose proof (reachable_never_on_full _ _ _ Hr) as Hinv.
  cbn [step] in Hstep. rewrite Hnth in Hstep. unfold run_call in Hstep.
  destruct (class s) as [| sleep |]; destruct (at_point c) eqn:Hat;
    try discriminate.
  - inversion Hstep; subst. now apply point_of_set_call_other.
  - destruct (BruteForce.body (pQueue s) c) as [c' q'].
    inversion Hstep; subst.
    now rewrite point_of_set_call_other.
  - inversion Hstep; subst. now apply point_of_set_call_other.
  - destruct (Sleep.body (pQueue s) c) as [[c' q'] b].
    inversion Hstep; subst.
    destruct b;
      [change (point_of t' (set_call t c' (set_queue q' s)) = point_of t' s)|];
      now rewrite point_of_set_call_other.
  - unfold Wait.predicate in Hstep. rewrite Hop in Hstep.
    destruct (stop s).
    + inversion Hstep; subst. now rewrite point_of_set_call_other.
    + destruct (consume (pQueue s) (consumedValue c)) as [[[[|] v] q']|].
      * destruct (full (pQueue s)); inversion Hstep; subst.
        -- rewrite notify_full_is_void.
           ++ now rewrite point_of_set_call_other.
           ++ cbn [set_call set_queue calls].
              apply Forall_replace_nth; [exact Hinv|].
              unfold never_on_full. simpl. discriminate.
        -- now rewrite point_of_set_call_other.
      * inversion Hstep; subst. now rewrite point_of_set_call_other.
      * inversion Hstep; subst. now rewrite point_of_set_call_other.
Qed.

Lemma consume_step_wakes_nobody_witness :
  let s := mkSystem WaitProduceConsume (SizeLimitedQueue (SafeQueue (Queue [7])) 1)
             false
             [mkCall (produce_call 7) (Returned None) 0 false;
              mkCall (produce_call 8) (Waiting onProduceToEmpty) 0 false;
              mkCall consume_call Locked 0 false] [] in
  let s' := mkSystem WaitProduceConsume (SizeLimitedQueue (SafeQueue (Queue [])) 1)
              false
              [mkCall (produce_call 7) (Returned None) 0 false;
               mkCall (produce_call 8) (Waiting onProduceToEmpty) 0 false;
               mkCall consume_call (Returned (Some 7)) 7 false] [] in
  step (Run 2 0) s = Some s'
  /\ point_of 1 s' = point_of 1 s.
Proof.
  cbv zeta. split; [reflexivity|].
  apply (consume_step_wakes_nobody WaitProduceConsume
           (SizeLimitedQueue (SafeQueue (Queue [])) 1) _ _ 2 0
           (mkCall consume_call Locked 0 false)).
  - apply (reachable_run _ _
             [Call (produce_call 7) false; Run 0 0;
              Call (produce_call 8) false; Run 1 0; Call consume_call false]
             _ _ (reachable_new _ _)).
    reflexivity.
  - reflexivity.
  - reflexivity.
  - reflexivity.
  - discriminate.
Defined.
